(** * Voice streaming service (server/services/voiceStreaming.ts)

    A shallow embedding of [VoiceStreamingService]: the registry of active
    sessions, the ElevenLabs socket handlers, the client socket handlers,
    the personality prompt table and the session-key construction. *)

From stdpp Require Import gmap strings list pretty relations.
From Stdlib Require Import Ascii QArith.

Local Set Warnings "-register-all".
Local Open Scope string_scope.
Local Open Scope Z_scope.
Local Open Scope list_scope.

(** ** JavaScript values

    The values the service handles are results of [JSON.parse], object
    literals handed to [JSON.stringify], and members inherited from
    [Object.prototype]. A JSON number is kept as the rational it denotes. *)

Inductive JsValue : Type :=
| JUndefined
| JNull
| JBool (b : bool)
| JNum (q : Q)
| JStr (s : string)
| JArr (xs : list JsValue)
| JObj (fields : list (string * JsValue))
| JNative (name : string).

(** Result of evaluating an expression that may throw. *)
Inductive Completion (A : Type) : Type :=
| Normal (a : A)
| Throw (e : string).
Arguments Normal {A} a.
Arguments Throw {A} e.

Module Js.

(** ToBoolean. *)
Definition truthy (v : JsValue) : bool :=
  match v with
  | JUndefined | JNull => false
  | JBool b => b
  | JNum q => negb (Qnum q =? 0)%Z
  | JStr s => negb (String.eqb s "")
  | JArr _ | JObj _ | JNative _ => true
  end.

(** [a || b] *)
Definition or (a b : JsValue) : JsValue := if truthy a then a else b.

(** The members every plain object inherits from [Object.prototype]. *)
Definition objectPrototype (k : string) : option JsValue :=
  if String.eqb k "constructor" then Some (JNative "Object")
  else if String.eqb k "__proto__" then Some (JNative "Object.prototype")
  else if bool_decide (k ∈ ["toString"; "toLocaleString"; "valueOf";
                            "hasOwnProperty"; "isPrototypeOf";
                            "propertyIsEnumerable"; "__defineGetter__";
                            "__defineSetter__"; "__lookupGetter__";
                            "__lookupSetter__"])
  then Some (JNative ("Object.prototype." +:+ k))
  else None.

Fixpoint ownProperty (fields : list (string * JsValue)) (k : string)
  : option JsValue :=
  match fields with
  | [] => None
  | (k', v) :: rest => if String.eqb k' k then Some v else ownProperty rest k
  end.

(** [o[k]] on a plain object: own property first, then the prototype. *)
Definition index (fields : list (string * JsValue)) (k : string) : JsValue :=
  match ownProperty fields k with
  | Some v => v
  | None => default JUndefined (objectPrototype k)
  end.

(** [v.k] for the member names the service reads ([type], [audio],
    [alignment], [isFinal], [text]): none of them is defined on the
    String, Number, Boolean or Array prototypes, so on those values the
    access yields [undefined]; on [null] it throws. *)
Definition getProp (v : JsValue) (k : string) : Completion JsValue :=
  match v with
  | JUndefined | JNull =>
      Throw ("TypeError: Cannot read properties of null (reading '"
               +:+ k +:+ "')")
  | JObj fields => Normal (index fields k)
  | _ => Normal JUndefined
  end.

(** [v === s] for a string literal [s]. *)
Definition strictEqStr (v : JsValue) (s : string) : bool :=
  match v with
  | JStr s' => String.eqb s' s
  | _ => false
  end.

End Js.

(** ** Personality prompts *)

Definition prompts : list (string * JsValue) :=
  [ ("AUtistic AI", JStr "You are AUtistic AI, specialized in meme coins and creative content. Be casual, fun, and knowledgeable about crypto culture.");
    ("Level 1 ASD", JStr "You are Level 1 ASD, focused on learning, facts, and solving complex problems. Be analytical and educational.");
    ("Savantist", JStr "You are Savantist, the expert in advanced trading insights. Provide deep analysis with maximum detail and precision.") ].

Definition getPersonalitySystemPrompt (personality : string) : JsValue :=
  Js.or (Js.index prompts personality) (Js.index prompts "AUtistic AI").

Definition knownPersonalities : list string :=
  ["AUtistic AI"; "Level 1 ASD"; "Savantist"].

Definition defaultPrompt : JsValue := Js.index prompts "AUtistic AI".

(** ** Session keys *)

(** [`${sessionId}-${Date.now()}`]; [now] is the value [Date.now()] returned,
    an integral number of milliseconds printed in decimal. *)
Definition streamSessionId (sessionId : string) (now : Z) : string :=
  sessionId +:+ "-" +:+ pretty now.

(** ** Sockets, sessions and the service state *)

(** [readyState] of a [ws] WebSocket. *)
Inductive ReadyState : Set := CONNECTING | OPEN | CLOSING | CLOSED.

Global Instance ReadyState_eq_dec : EqDecision ReadyState.
Proof. solve_decision. Defined.

(** A [VoiceStreamingSession] object. [elevenLabsWs] holds the address of
    the ElevenLabs socket once it is assigned; [geminiSession] is declared
    and never assigned. *)
Record VoiceStreamingSession : Type := {
  sessionId : string;
  conversationId : string;
  elevenLabsWs : option nat;
  geminiSession : option JsValue;
  isActive : bool;
  startTime : Z;
}.

(** An ElevenLabs socket created by [initializeElevenLabs]. Its three
    listeners close over the client socket and the session object of the
    call that created it. *)
Record UpstreamSocket : Type := {
  url : string;
  readyState : ReadyState;
  boundClient : nat;
  boundSession : nat;
}.

(** What the service does to the outside, in the order it does it. A frame
    is the object literal given to [JSON.stringify]. *)
Inductive Effect : Type :=
| ClientSend (clientWs : nat) (frame : JsValue)
| UpstreamSend (ws : nat) (frame : JsValue)
| UpstreamClose (ws : nat)
| CreateAudioCache (entry : JsValue).

Inductive LogLevel : Set := LogInfo | LogWarn | LogError.

Record Env : Type := {
  ELEVENLABS_VOICE_ID : option string;
  ELEVENLABS_API_KEY : option string;
}.

(** [activeSessions] maps a key to the address of a session object in
    [sessions]; the same object is also reached from the listeners
    ([boundSession], [clientHandlers]). *)
Record World : Type := {
  env : Env;
  activeSessions : gmap string nat;
  sessions : list VoiceStreamingSession;
  sockets : list UpstreamSocket;
  clientHandlers : list (nat * nat);
  effects : list Effect;
  console : list (LogLevel * string);
}.

Definition setActiveSessions (f : gmap string nat → gmap string nat) (w : World) : World :=
  {| env := env w; activeSessions := f (activeSessions w);
     sessions := sessions w; sockets := sockets w;
     clientHandlers := clientHandlers w; effects := effects w;
     console := console w |}.

Definition setSessions (f : list VoiceStreamingSession → list VoiceStreamingSession)
    (w : World) : World :=
  {| env := env w; activeSessions := activeSessions w;
     sessions := f (sessions w); sockets := sockets w;
     clientHandlers := clientHandlers w; effects := effects w;
     console := console w |}.

Definition setSockets (f : list UpstreamSocket → list UpstreamSocket) (w : World) : World :=
  {| env := env w; activeSessions := activeSessions w;
     sessions := sessions w; sockets := f (sockets w);
     clientHandlers := clientHandlers w; effects := effects w;
     console := console w |}.

Definition setClientHandlers (f : list (nat * nat) → list (nat * nat)) (w : World) : World :=
  {| env := env w; activeSessions := activeSessions w;
     sessions := sessions w; sockets := sockets w;
     clientHandlers := f (clientHandlers w); effects := effects w;
     console := console w |}.

Definition setEffects (f : list Effect → list Effect) (w : World) : World :=
  {| env := env w; activeSessions := activeSessions w;
     sessions := sessions w; sockets := sockets w;
     clientHandlers := clientHandlers w; effects := f (effects w);
     console := console w |}.

Definition setConsole (f : list (LogLevel * string) → list (LogLevel * string))
    (w : World) : World :=
  {| env := env w; activeSessions := activeSessions w;
     sessions := sessions w; sockets := sockets w;
     clientHandlers := clientHandlers w; effects := effects w;
     console := f (console w) |}.

Definition emptyWorld (e : Env) : World :=
  {| env := e; activeSessions := ∅; sessions := []; sockets := [];
     clientHandlers := []; effects := []; console := [] |}.

(** ** Computations over the service state that may throw *)

Definition M (A : Type) : Type := World → Completion A * World.

Definition ret {A} (a : A) : M A := λ w, (Normal a, w).

Definition bind {A B} (m : M A) (k : A → M B) : M B :=
  λ w, match m w with
       | (Normal a, w') => k a w'
       | (Throw e, w') => (Throw e, w')
       end.

Definition throw {A} (e : string) : M A := λ w, (Throw e, w).

(** [try { m } catch (error) { h error }] *)
Definition tryCatch {A} (m : M A) (h : string → M A) : M A :=
  λ w, match m w with
       | (Normal a, w') => (Normal a, w')
       | (Throw e, w') => h e w'
       end.

Definition getWorld : M World := λ w, (Normal w, w).
Definition modify (f : World → World) : M unit := λ w, (Normal tt, f w).
Definition liftC {A} (c : Completion A) : M A := λ w, (c, w).

(** The state a computation leaves behind. *)
Definition run {A} (m : M A) (w : World) : World := snd (m w).

Global Instance M_ret : MRet M := @ret.
Global Instance M_bind : MBind M := λ A B k m, bind m k.

Definition consoleLog (s : string) : M unit :=
  modify (setConsole (λ l, l ++ [(LogInfo, s)])).
Definition consoleWarn (s : string) : M unit :=
  modify (setConsole (λ l, l ++ [(LogWarn, s)])).
Definition consoleError (s : string) : M unit :=
  modify (setConsole (λ l, l ++ [(LogError, s)])).

Definition perform (e : Effect) : M unit :=
  modify (setEffects (λ l, l ++ [e])).

(** [clientWs.send(JSON.stringify(frame))] *)
Definition clientSend (clientWs : nat) (frame : JsValue) : M unit :=
  perform (ClientSend clientWs frame).

(** [ws.send(JSON.stringify(frame))] on an ElevenLabs socket *)
Definition wsSend (ws : nat) (frame : JsValue) : M unit :=
  perform (UpstreamSend ws frame).

Definition closedBy (s : UpstreamSocket) : UpstreamSocket :=
  {| url := url s;
     readyState := match readyState s with CLOSED => CLOSED | _ => CLOSING end;
     boundClient := boundClient s; boundSession := boundSession s |}.

(** [ws.close()]: the call is recorded; a socket that is not yet closed
    starts closing. *)
Definition wsClose (ws : nat) : M unit :=
  perform (UpstreamClose ws);;
  modify (setSockets (λ l, match l !! ws with
                           | Some s => <[ws := closedBy s]> l
                           | None => l
                           end)).

(** The session object at an address. Listeners and the registry only hold
    addresses of objects that were allocated. *)
Definition readSession (vs : nat) : M VoiceStreamingSession :=
  w ← getWorld;
  match sessions w !! vs with
  | Some s => mret s
  | None => throw "ReferenceError: no session object at this address"
  end.

(** ** VoiceStreamingService *)

(** What the surroundings decide during [initializeVoiceSession]: the two
    readings of [Date.now()] and whether [new WebSocket(url)] returns a
    socket or throws. *)
Inductive CtorOutcome : Type := Constructed | CtorThrows (e : string).

Record InitOracle : Type := {
  nowKey : Z;
  nowStart : Z;
  ctor : CtorOutcome;
}.

(** What the collaborators decide during [cacheAudioOutput]: the token
    [generateSecureToken()] returns and whether [storage.createAudioCache]
    rejects. *)
Record CacheOracle : Type := {
  secureToken : string;
  storageRejects : option string;
}.

(** [session.isActive = false] *)
Definition deactivate (s : VoiceStreamingSession) : VoiceStreamingSession :=
  {| sessionId := s.(sessionId);
     conversationId := s.(conversationId);
     elevenLabsWs := s.(elevenLabsWs);
     geminiSession := s.(geminiSession);
     isActive := false;
     startTime := s.(startTime) |}.

(** [voiceSession.elevenLabsWs = elevenLabsWs] *)
Definition assignElevenLabsWs (ws : nat) (s : VoiceStreamingSession)
  : VoiceStreamingSession :=
  {| sessionId := s.(sessionId);
     conversationId := s.(conversationId);
     elevenLabsWs := Some ws;
     geminiSession := s.(geminiSession);
     isActive := s.(isActive);
     startTime := s.(startTime) |}.

Definition cleanupSession (sessionId : string) : M unit :=
  w ← getWorld;
  match activeSessions w !! sessionId with
  | Some vs =>
      modify (setSessions (alter deactivate vs));;
      session ← readSession vs;
      match session.(elevenLabsWs) with
      | Some ws => wsClose ws
      | None => mret tt
      end;;
      modify (setActiveSessions (delete sessionId));;
      consoleLog ("[Voice] Session cleaned up: " +:+ sessionId)
  | None => mret tt
  end.

Definition modelId : string := "eleven_turbo_v2_5".

Definition voiceId (e : Env) : string :=
  match e.(ELEVENLABS_VOICE_ID) with
  | Some v => if String.eqb v "" then "default_voice_id" else v
  | None => "default_voice_id"
  end.

Definition elevenLabsUrl (e : Env) : string :=
  "wss://api.elevenlabs.io/v1/text-to-speech/" +:+ voiceId e
    +:+ "/stream-input?model_id=" +:+ modelId.

(** [new WebSocket(url)] together with the registration of its listeners. *)
Definition newWebSocket (u : string) (c : CtorOutcome) (clientWs vs : nat) : M nat :=
  match c with
  | CtorThrows e => throw e
  | Constructed =>
      w ← getWorld;
      modify (setSockets (λ l, l ++ [{| url := u; readyState := CONNECTING;
                                        boundClient := clientWs;
                                        boundSession := vs |}]));;
      mret (length (sockets w))
  end.

Definition initializeElevenLabs (clientWs vs : nat) (c : CtorOutcome) : M unit :=
  w ← getWorld;
  ws ← newWebSocket (elevenLabsUrl (env w)) c clientWs vs;
  modify (setSessions (alter (assignElevenLabsWs ws) vs)).

Definition voiceSettingsFrame (e : Env) : JsValue :=
  JObj [ ("text", JStr " ");
         ("voice_settings", JObj [ ("stability", JNum (1 # 2));
                                   ("similarity_boost", JNum (4 # 5));
                                   ("speed", JNum 1) ]);
         ("xi_api_key", from_option JStr JUndefined e.(ELEVENLABS_API_KEY)) ].

(** [elevenLabsWs.on('open', ...)] *)
Definition elevenLabsOnOpen (ws : nat) : M unit :=
  consoleLog "[Voice] ElevenLabs WebSocket connected";;
  w ← getWorld;
  wsSend ws (voiceSettingsFrame (env w)).

Definition audioCacheEntry (sessionId conversationId tok : string) : JsValue :=
  JObj [ ("sessionId", JStr sessionId);
         ("conversationId", JStr conversationId);
         ("audioUrl", JStr ("/api/audio/" +:+ tok));
         ("secureToken", JStr tok);
         ("text", JStr "Voice conversation audio");
         ("voiceSettings", JObj [ ("provider", JStr "elevenlabs");
                                  ("model", JStr "eleven_turbo_v2_5") ]) ].

(** [await storage.createAudioCache(entry)]: the call, then its outcome.
    What follows the [await] in [cacheAudioOutput] only writes to the
    console and is run in the same step. *)
Definition createAudioCache (entry : JsValue) (rejects : option string) : M unit :=
  perform (CreateAudioCache entry);;
  match rejects with
  | Some e => throw e
  | None => mret tt
  end.

Definition cacheAudioOutput (sessionId conversationId : string)
    (audioBase64 : JsValue) (o : CacheOracle) : M unit :=
  tryCatch
    (createAudioCache (audioCacheEntry sessionId conversationId o.(secureToken))
                      o.(storageRejects);;
     consoleLog "[Voice] Audio cached with secure token")
    (λ error, consoleError "[Voice] Failed to cache audio:").

Definition audioOutputFrame (audio alignment : JsValue) : JsValue :=
  JObj [ ("type", JStr "audio_output");
         ("audio", audio);
         ("alignment", alignment) ].

(** [elevenLabsWs.on('message', ...)]; [data] is the outcome of
    [JSON.parse(data.toString())]. *)
Definition elevenLabsOnMessage (clientWs vs : nat) (data : Completion JsValue)
    (o : CacheOracle) : M unit :=
  tryCatch
    (response ← liftC data;
     audio ← liftC (Js.getProp response "audio");
     if Js.truthy audio then
       alignment ← liftC (Js.getProp response "alignment");
       clientSend clientWs (audioOutputFrame audio alignment);;
       isFinal ← liftC (Js.getProp response "isFinal");
       if Js.truthy isFinal then
         session ← readSession vs;
         cacheAudioOutput session.(sessionId) session.(conversationId) audio o
       else mret tt
     else mret tt)
    (λ error, consoleError "[Voice] ElevenLabs message error:").

Definition ttsErrorFrame : JsValue :=
  JObj [ ("type", JStr "error"); ("message", JStr "TTS connection error") ].

(** [elevenLabsWs.on('error', ...)] *)
Definition elevenLabsOnError (clientWs : nat) : M unit :=
  consoleError "[Voice] ElevenLabs WebSocket error:";;
  clientSend clientWs ttsErrorFrame.

Definition voiceReadyFrame : JsValue :=
  JObj [ ("type", JStr "voice_ready"); ("message", JStr "Voice streaming ready") ].

Definition initializeGeminiLive (clientWs vs : nat) (personality : string) : M unit :=
  tryCatch
    (let system_instruction := getPersonalitySystemPrompt personality in
     consoleLog ("[Voice] Gemini configuration prepared for personality: "
                   +:+ personality);;
     clientSend clientWs voiceReadyFrame)
    (λ error, consoleError "[Voice] Gemini Live initialization error:";;
              throw error).

Definition audioProcessingFrame : JsValue :=
  JObj [ ("type", JStr "audio_processing");
         ("message", JStr "Processing your speech...") ].

Definition processAudioInput (audioData : JsValue) (vs clientWs : nat) : M unit :=
  clientSend clientWs audioProcessingFrame.

(** The session's ElevenLabs socket when
    [voiceSession.elevenLabsWs && voiceSession.elevenLabsWs.readyState === WebSocket.OPEN]. *)
Definition openLink (w : World) (session : VoiceStreamingSession) : option nat :=
  match session.(elevenLabsWs) with
  | Some ws =>
      match sockets w !! ws with
      | Some s => if decide (s.(readyState) = OPEN) then Some ws else None
      | None => None
      end
  | None => None
  end.

Definition textFrame (text : JsValue) : JsValue :=
  JObj [ ("text", text); ("try_trigger_generation", JBool true) ].

Definition processTextInput (text : JsValue) (vs : nat) : M unit :=
  session ← readSession vs;
  w ← getWorld;
  match openLink w session with
  | None => consoleError "[Voice] ElevenLabs WebSocket not ready"
  | Some ws => wsSend ws (textFrame text)
  end.

Definition flushFrame : JsValue :=
  JObj [ ("text", JStr ""); ("flush", JBool true) ].

Definition handleStopSpeaking (vs : nat) : M unit :=
  session ← readSession vs;
  w ← getWorld;
  match openLink w session with
  | None => mret tt
  | Some ws => wsSend ws flushFrame
  end.

(** [clientWs.on('message', ...)]; [data] is the outcome of
    [JSON.parse(data.toString())]. *)
Definition clientOnMessage (clientWs vs : nat) (data : Completion JsValue) : M unit :=
  tryCatch
    (message ← liftC data;
     type ← liftC (Js.getProp message "type");
     if Js.strictEqStr type "audio_input" then
       audio ← liftC (Js.getProp message "audio");
       processAudioInput audio vs clientWs
     else if Js.strictEqStr type "text_input" then
       text ← liftC (Js.getProp message "text");
       processTextInput text vs
     else if Js.strictEqStr type "stop" then
       handleStopSpeaking vs
     else
       consoleWarn "[Voice] Unknown message type:")
    (λ error, consoleError "[Voice] Client message error:").

(** [clientWs.on('close', ...)] *)
Definition clientOnClose (vs : nat) : M unit :=
  consoleLog "[Voice] Client disconnected";;
  session ← readSession vs;
  cleanupSession session.(sessionId).

Definition setupClientHandlers (clientWs vs : nat) : M unit :=
  modify (setClientHandlers (λ l, l ++ [(clientWs, vs)])).

Definition initErrorFrame : JsValue :=
  JObj [ ("type", JStr "error");
         ("message", JStr "Failed to initialize voice streaming") ].

Definition initializeVoiceSession (clientWs : nat)
    (sessionId conversationId personality : string) (o : InitOracle) : M unit :=
  let streamSessionId := streamSessionId sessionId o.(nowKey) in
  consoleLog ("[Voice] Initializing voice session: " +:+ streamSessionId);;
  w ← getWorld;
  let vs := length (sessions w) in
  modify (setSessions (λ l, l ++ [{| sessionId := streamSessionId;
                                     conversationId := conversationId;
                                     elevenLabsWs := None;
                                     geminiSession := None;
                                     isActive := true;
                                     startTime := o.(nowStart) |}]));;
  modify (setActiveSessions <[streamSessionId := vs]>);;
  tryCatch
    (initializeElevenLabs clientWs vs o.(ctor);;
     initializeGeminiLive clientWs vs personality;;
     setupClientHandlers clientWs vs)
    (λ error,
       consoleError "[Voice] Failed to initialize voice session:";;
       clientSend clientWs initErrorFrame;;
       cleanupSession streamSessionId).

(** ** Events

    The runtime delivers one event at a time; each runs the listeners the
    service registered for it. [initializeVoiceSession] awaits nothing that
    needs the event loop, so a call runs to its end before the next socket
    event is delivered.

    [UpstreamOpen]: a connecting socket becomes [OPEN] and its open
    listener runs. [UpstreamError]: the error listener runs; what the
    library itself does to the socket around an error is the separate
    event [UpstreamClosed], for which the service registers no listener.
    [UpstreamMessage] and [ClientMessage] carry the outcome of
    [JSON.parse] on the received data. *)

Inductive Event : Type :=
| Connect (clientWs : nat) (sessionId conversationId personality : string)
          (o : InitOracle)
| UpstreamOpen (ws : nat)
| UpstreamMessage (ws : nat) (data : Completion JsValue) (o : CacheOracle)
| UpstreamError (ws : nat)
| UpstreamClosed (ws : nat)
| ClientMessage (clientWs : nat) (data : Completion JsValue)
| ClientClose (clientWs : nat).

Definition setReadyState (r : ReadyState) (s : UpstreamSocket) : UpstreamSocket :=
  {| url := s.(url); readyState := r;
     boundClient := s.(boundClient); boundSession := s.(boundSession) |}.

(** The sessions whose listeners are registered on a client socket, in
    registration order. *)
Definition listenersOf (clientWs : nat) (w : World) : list nat :=
  snd <$> filter (λ h, h.1 = clientWs) (clientHandlers w).

Definition step (w : World) (ev : Event) : World :=
  match ev with
  | Connect clientWs sessionId conversationId personality o =>
      run (initializeVoiceSession clientWs sessionId conversationId personality o) w
  | UpstreamOpen ws =>
      match sockets w !! ws with
      | Some s =>
          if decide (s.(readyState) = CONNECTING) then
            run (elevenLabsOnOpen ws) (setSockets (alter (setReadyState OPEN) ws) w)
          else w
      | None => w
      end
  | UpstreamMessage ws data o =>
      match sockets w !! ws with
      | Some s => run (elevenLabsOnMessage s.(boundClient) s.(boundSession) data o) w
      | None => w
      end
  | UpstreamError ws =>
      match sockets w !! ws with
      | Some s => run (elevenLabsOnError s.(boundClient)) w
      | None => w
      end
  | UpstreamClosed ws =>
      setSockets (alter (setReadyState CLOSED) ws) w
  | ClientMessage clientWs data =>
      foldl (λ w' vs, run (clientOnMessage clientWs vs data) w') w
            (listenersOf clientWs w)
  | ClientClose clientWs =>
      foldl (λ w' vs, run (clientOnClose vs) w') w (listenersOf clientWs w)
  end.

Definition steps (w : World) (evs : list Event) : World := foldl step w evs.

(** ** Observations on the effects *)

Definition frameHasType (ty : string) (frame : JsValue) : bool :=
  match Js.getProp frame "type" with
  | Normal v => Js.strictEqStr v ty
  | Throw _ => false
  end.

(** Frames sent to a client socket, oldest first. *)
Definition clientFrames (clientWs : nat) (w : World) : list JsValue :=
  omap (λ e, match e with
             | ClientSend c f => if decide (c = clientWs) then Some f else None
             | _ => None
             end) (effects w).

(** Frames sent to an ElevenLabs socket, oldest first. *)
Definition upstreamFrames (ws : nat) (w : World) : list JsValue :=
  omap (λ e, match e with
             | UpstreamSend u f => if decide (u = ws) then Some f else None
             | _ => None
             end) (effects w).

(** ElevenLabs sockets on which [close()] was called, oldest call first. *)
Definition closeCalls (w : World) : list nat :=
  omap (λ e, match e with
             | UpstreamClose u => Some u
             | _ => None
             end) (effects w).

(** Entries handed to [storage.createAudioCache], oldest first. *)
Definition cacheCalls (w : World) : list JsValue :=
  omap (λ e, match e with
             | CreateAudioCache entry => Some entry
             | _ => None
             end) (effects w).

(** ** Vocabulary of the statements *)

(** No dash occurs in the string. *)
Fixpoint dashFree (s : string) : Prop :=
  match s with
  | EmptyString => True
  | String c s' => c ≠ "-"%char ∧ dashFree s'
  end.

(** The session's ElevenLabs socket is assigned and its [readyState] is
    [OPEN]. *)
Definition linkOpen (w : World) (session : VoiceStreamingSession) (ws : nat) : Prop :=
  ∃ s, session.(elevenLabsWs) = Some ws ∧ sockets w !! ws = Some s
       ∧ s.(readyState) = OPEN.

(** Whether the client handler's [switch] has a case for the frame. *)
Definition knownDiscriminator (data : Completion JsValue) : bool :=
  match data with
  | Normal message =>
      match Js.getProp message "type" with
      | Normal type =>
          Js.strictEqStr type "audio_input" || Js.strictEqStr type "text_input"
          || Js.strictEqStr type "stop"
      | Throw _ => false
      end
  | Throw _ => false
  end.

(** Equal in everything but the console. *)
Definition sameState (w1 w2 : World) : Prop :=
  env w1 = env w2 ∧ activeSessions w1 = activeSessions w2
  ∧ sessions w1 = sessions w2 ∧ sockets w1 = sockets w2
  ∧ clientHandlers w1 = clientHandlers w2 ∧ effects w1 = effects w2.

(** Registry, session objects, sockets and listeners are the same. *)
Definition sameObjects (w w' : World) : Prop :=
  activeSessions w' = activeSessions w ∧ sessions w' = sessions w
  ∧ sockets w' = sockets w ∧ clientHandlers w' = clientHandlers w.

(** The console line [cacheAudioOutput] writes. *)
Definition cacheLogLine (o : CacheOracle) : LogLevel * string :=
  match o.(storageRejects) with
  | None => (LogInfo, "[Voice] Audio cached with secure token")
  | Some _ => (LogError, "[Voice] Failed to cache audio:")
  end.

(** Every address kept in the registry, in a listener or in a session
    object points to an allocated object. *)
Record wf (w : World) : Prop := {
  wf_registry : ∀ k vs, activeSessions w !! k = Some vs → (vs < length (sessions w))%nat;
  wf_sockets : ∀ ws s, sockets w !! ws = Some s → (s.(boundSession) < length (sessions w))%nat;
  wf_handlers : ∀ c vs, (c, vs) ∈ clientHandlers w → (vs < length (sessions w))%nat;
  wf_links : ∀ vs session ws,
    sessions w !! vs = Some session → session.(elevenLabsWs) = Some ws →
    (ws < length (sockets w))%nat;
}.

(** ** Sample runs *)

Definition exampleEnv : Env :=
  {| ELEVENLABS_VOICE_ID := None; ELEVENLABS_API_KEY := Some "xi-key" |}.

Definition exampleInit : InitOracle :=
  {| nowKey := 1700000000000; nowStart := 1700000000000; ctor := Constructed |}.

Definition throwingInit : InitOracle :=
  {| nowKey := 1700000000000; nowStart := 1700000000000;
     ctor := CtorThrows "SyntaxError: Invalid URL" |}.

Definition exampleToken : CacheOracle :=
  {| secureToken := "tok-1"; storageRejects := None |}.

(** A session whose ElevenLabs socket is still connecting. *)
Definition connectingWorld : World :=
  step (emptyWorld exampleEnv) (Connect 0 "s1" "c1" "AUtistic AI" exampleInit).

(** The same session once the socket has opened. *)
Definition readyWorld : World := step connectingWorld (UpstreamOpen 0).

(** The connection is refused before the socket opens. *)
Definition refusedWorld : World := step connectingWorld (UpstreamError 0).

(** The socket reports an error after it has opened. *)
Definition erroredWorld : World := step readyWorld (UpstreamError 0).

(** [new WebSocket(url)] throws. *)
Definition failedInitWorld : World :=
  step (emptyWorld exampleEnv) (Connect 0 "s1" "c1" "AUtistic AI" throwingInit).

(** Two clients ask for the same session id in the same millisecond. *)
Definition collidingWorld : World :=
  steps (emptyWorld exampleEnv)
    [ Connect 0 "s1" "c1" "AUtistic AI" exampleInit;
      Connect 1 "s1" "c1" "AUtistic AI" exampleInit ].

Definition exampleSession : VoiceStreamingSession :=
  {| sessionId := "s1-1700000000000"; conversationId := "c1";
     elevenLabsWs := Some 0%nat; geminiSession := None;
     isActive := true; startTime := 1700000000000 |}.

Definition exampleSocket (r : ReadyState) : UpstreamSocket :=
  {| url := elevenLabsUrl exampleEnv; readyState := r;
     boundClient := 0; boundSession := 0 |}.

Definition helloFrame : JsValue :=
  JObj [ ("type", JStr "text_input"); ("text", JStr "hello") ].

Definition stopFrame : JsValue := JObj [ ("type", JStr "stop") ].

Definition pingFrame : JsValue := JObj [ ("type", JStr "ping") ].

Definition finalAudioFrame : JsValue :=
  JObj [ ("audio", JStr "QUJD"); ("isFinal", JBool true) ].

Definition finalOnlyFrame : JsValue := JObj [ ("isFinal", JBool true) ].

(** Unfolds the service code and the operations it is written with. *)
Ltac unfold_service :=
  unfold steps, step, run,
    initializeVoiceSession, initializeElevenLabs, newWebSocket,
    initializeGeminiLive, setupClientHandlers,
    elevenLabsOnOpen, elevenLabsOnMessage, elevenLabsOnError,
    clientOnMessage, clientOnClose,
    processAudioInput, processTextInput, handleStopSpeaking,
    cacheAudioOutput, createAudioCache, cleanupSession, readSession,
    wsClose, wsSend, clientSend, perform,
    consoleLog, consoleWarn, consoleError,
    tryCatch, throw, liftC, modify, getWorld,
    mbind, M_bind, bind, mret, M_ret, ret in *.

(** ** Vocabulary of the further statements *)

(** What a step may add to the effects, and that it touches nothing else
    but the console. *)
Definition onlyEmits (w w' : World) (l : list Effect) : Prop :=
  env w' = env w ∧ sameObjects w w' ∧ effects w' = effects w ++ l.

(** The two directives a client can give the synthesis link. *)
Inductive Directive : Type :=
| SendText (text : JsValue)
| Flush.

(** A client frame carrying the directive: any parsed frame whose [type]
    (and [text]) members are the directive's. *)
Definition carries (message : JsValue) (d : Directive) : Prop :=
  match d with
  | SendText t =>
      Js.getProp message "type" = Normal (JStr "text_input")
      ∧ Js.getProp message "text" = Normal t
  | Flush => Js.getProp message "type" = Normal (JStr "stop")
  end.

(** The wire frame the provider gets for the directive. *)
Definition directiveFrame (d : Directive) : JsValue :=
  match d with
  | SendText t => textFrame t
  | Flush => flushFrame
  end.

(** An effect that neither sends to the provider nor closes a socket. *)
Definition harmless (e : Effect) : Prop :=
  match e with
  | ClientSend _ _ | CreateAudioCache _ => True
  | UpstreamSend _ _ | UpstreamClose _ => False
  end.

(** Once [close()] was called on a socket, no later effect sends on it. *)
Definition quietAfterClose (l : list Effect) : Prop :=
  ∀ pre post ws frame,
    l = pre ++ UpstreamClose ws :: post → UpstreamSend ws frame ∉ post.

(** The ways one listener run, or one call of [initializeVoiceSession],
    changes registry, session objects, sockets, listeners and effects. *)
Inductive micro (w w' : World) : Prop :=
| micro_emit (l : list Effect) :
    onlyEmits w w' l → Forall harmless l → micro w w'
| micro_send (vs : nat) (session : VoiceStreamingSession) (ws : nat)
             (frame : JsValue) :
    sessions w !! vs = Some session → linkOpen w session ws →
    onlyEmits w w' [UpstreamSend ws frame] → micro w w'
| micro_created (clientWs : nat) (key cid : string) (t : Z) :
    env w' = env w →
    effects w' = effects w ++ [ClientSend clientWs voiceReadyFrame] →
    activeSessions w' = <[key := length (sessions w)]> (activeSessions w) →
    sessions w'
    = sessions w ++ [{| sessionId := key; conversationId := cid;
                        elevenLabsWs := Some (length (sockets w));
                        geminiSession := None; isActive := true;
                        startTime := t |}] →
    sockets w'
    = sockets w ++ [{| url := elevenLabsUrl (env w); readyState := CONNECTING;
                       boundClient := clientWs;
                       boundSession := length (sessions w) |}] →
    clientHandlers w' = clientHandlers w ++ [(clientWs, length (sessions w))] →
    micro w w'
| micro_failed (clientWs : nat) (key cid : string) (t : Z) :
    env w' = env w →
    effects w' = effects w ++ [ClientSend clientWs initErrorFrame] →
    activeSessions w' = delete key (activeSessions w) →
    sessions w'
    = sessions w ++ [{| sessionId := key; conversationId := cid;
                        elevenLabsWs := None; geminiSession := None;
                        isActive := false; startTime := t |}] →
    sockets w' = sockets w →
    clientHandlers w' = clientHandlers w →
    micro w w'
| micro_opened (ws : nat) (s : UpstreamSocket) :
    sockets w !! ws = Some s → s.(readyState) = CONNECTING →
    env w' = env w →
    effects w' = effects w ++ [UpstreamSend ws (voiceSettingsFrame (env w))] →
    activeSessions w' = activeSessions w →
    sessions w' = sessions w →
    sockets w' = alter (setReadyState OPEN) ws (sockets w) →
    clientHandlers w' = clientHandlers w →
    micro w w'
| micro_closed (ws : nat) :
    env w' = env w →
    effects w' = effects w →
    activeSessions w' = activeSessions w →
    sessions w' = sessions w →
    sockets w' = alter (setReadyState CLOSED) ws (sockets w) →
    clientHandlers w' = clientHandlers w →
    micro w w'
| micro_cleanup (key : string) (vs : nat) (session : VoiceStreamingSession) :
    activeSessions w !! key = Some vs →
    sessions w !! vs = Some session →
    env w' = env w →
    effects w'
    = effects w ++ from_option (λ ws, [UpstreamClose ws]) [] session.(elevenLabsWs) →
    activeSessions w' = delete key (activeSessions w) →
    sessions w' = alter deactivate vs (sessions w) →
    sockets w'
    = from_option (λ ws, from_option (λ s, <[ws := closedBy s]> (sockets w))
                                     (sockets w) (sockets w !! ws))
                  (sockets w) session.(elevenLabsWs) →
    clientHandlers w' = clientHandlers w →
    micro w w'.

(** What holds of registry, session objects, sockets and effects in every
    state the service reaches. *)
Record consistent (w : World) : Prop := {
  c_registry : ∀ k vs, activeSessions w !! k = Some vs →
    ∃ session, sessions w !! vs = Some session
               ∧ session.(sessionId) = k ∧ session.(isActive) = true;
  c_link : ∀ vs session ws,
    sessions w !! vs = Some session → session.(elevenLabsWs) = Some ws →
    ∃ s, sockets w !! ws = Some s ∧ s.(boundSession) = vs;
  c_socket : ∀ ws s, sockets w !! ws = Some s →
    ∃ session, sessions w !! s.(boundSession) = Some session
               ∧ session.(elevenLabsWs) = Some ws;
  c_closed : ∀ ws, ws ∈ closeCalls w →
    ∃ s session, sockets w !! ws = Some s
                 ∧ s.(readyState) ≠ OPEN ∧ s.(readyState) ≠ CONNECTING
                 ∧ sessions w !! s.(boundSession) = Some session
                 ∧ session.(isActive) = false;
  c_once : NoDup (closeCalls w);
  c_settings : ∀ ws,
    match sockets w !! ws with
    | None => upstreamFrames ws w = []
    | Some s =>
        (s.(readyState) = CONNECTING → upstreamFrames ws w = [])
        ∧ (s.(readyState) = OPEN → upstreamFrames ws w ≠ [])
        ∧ (∀ frame rest, upstreamFrames ws w = frame :: rest →
             frame = voiceSettingsFrame (env w))
    end;
  c_quiet : quietAfterClose (effects w);
}.

(** Sample event sequences. *)
Definition readyEvents : list Event :=
  [ Connect 0 "s1" "c1" "AUtistic AI" exampleInit; UpstreamOpen 0 ].

Definition closedEvents : list Event :=
  readyEvents ++ [ ClientMessage 0 (Normal helloFrame); ClientClose 0 ].

Definition audioInputFrame : JsValue :=
  JObj [ ("type", JStr "audio_input"); ("audio", JStr "UklGRg==") ].

(** * Properties *)

(** ** The personality prompt table *)

Lemma prompt_of_known (personality : string) :
  personality ∈ knownPersonalities →
  getPersonalitySystemPrompt personality = Js.index prompts personality
  ∧ ∃ text, getPersonalitySystemPrompt personality = JStr text.
Proof.
  unfold knownPersonalities. rewrite !elem_of_cons, elem_of_nil.
  intros [-> | [-> | [-> | []]]]; (split; [reflexivity | eexists; reflexivity]).
Qed.

Lemma ownProperty_prompts_None (personality : string) :
  personality ∉ knownPersonalities → Js.ownProperty prompts personality = None.
Proof.
  unfold knownPersonalities. rewrite !not_elem_of_cons. intros (H1 & H2 & H3 & _).
  unfold prompts. cbn [Js.ownProperty].
  rewrite !(proj2 (String.eqb_neq _ _)) by congruence. reflexivity.
Qed.

(** Outside the table, and outside the names [Object.prototype] defines, the
    lookup is [undefined] and the default prompt is returned. *)
Lemma prompt_of_unknown (personality : string) :
  personality ∉ knownPersonalities →
  Js.objectPrototype personality = None →
  getPersonalitySystemPrompt personality = defaultPrompt.
Proof.
  intros Hk Hp. unfold getPersonalitySystemPrompt, Js.index at 1.
  rewrite (ownProperty_prompts_None _ Hk), Hp. reflexivity.
Qed.

(** C9. The resolver is meant to return the default personality's prompt for
    every name outside the table. For the name [constructor], which is not
    in the table, [prompts[personality]] finds the member inherited from
    [Object.prototype]; it is truthy, so the [||] fallback is not taken and
    the resolver returns that built-in instead of a prompt text. *)
Theorem getPersonalitySystemPrompt_constructor :
  ("constructor" ∉ knownPersonalities)
  ∧ getPersonalitySystemPrompt "constructor" = JNative "Object"
  ∧ getPersonalitySystemPrompt "constructor" ≠ defaultPrompt
  ∧ (∀ text, getPersonalitySystemPrompt "constructor" ≠ JStr text).
Proof.
  split; [|split; [|split]].
  - unfold knownPersonalities. rewrite !not_elem_of_cons.
    repeat split; try discriminate. apply not_elem_of_nil.
  - reflexivity.
  - discriminate.
  - intros text. discriminate.
Qed.

(** ** Session keys *)

Lemma pretty_N_go_dashFree (x : N) (s : string) :
  dashFree s → dashFree (pretty_N_go x s).
Proof.
  revert s. induction (N.lt_wf_0 x) as [x _ IH]. intros s Hs.
  destruct (decide (x = 0%N)) as [-> | Hx].
  - rewrite pretty_N_go_0. exact Hs.
  - rewrite pretty_N_go_step by lia. apply IH.
    + apply N.div_lt; lia.
    + split; [|exact Hs]. unfold pretty_N_char.
      repeat case_match; discriminate.
Qed.

Lemma pretty_Z_dashFree (t : Z) : 0 ≤ t → dashFree (pretty t).
Proof.
  intros Ht. destruct t as [| p | p]; [simpl; split; [discriminate | exact I] | | lia].
  unfold pretty, pretty_Z, pretty, pretty_positive, pretty, pretty_N.
  case_decide; [discriminate|]. apply pretty_N_go_dashFree. exact I.
Qed.

Lemma sapp_nil (s : string) : "" +:+ s = s.
Proof. reflexivity. Qed.

Lemma sapp_cons (c : ascii) (a s : string) : String c a +:+ s = String c (a +:+ s).
Proof. reflexivity. Qed.

Lemma dashFree_no_dash (a b : string) : dashFree (a +:+ "-" +:+ b) → False.
Proof.
  induction a as [| c a IH]; repeat (rewrite sapp_nil || rewrite sapp_cons); simpl.
  - intros [H _]. congruence.
  - intros [_ H]. auto.
Qed.

(** The last dash of a key separates the session id from the timestamp. *)
Lemma key_split (a b d1 d2 : string) :
  dashFree d1 → dashFree d2 →
  a +:+ "-" +:+ d1 = b +:+ "-" +:+ d2 → a = b ∧ d1 = d2.
Proof.
  revert b. induction a as [| c a IH]; intros [| c' b] H1 H2 Heq;
    repeat (rewrite sapp_nil in Heq || rewrite sapp_cons in Heq).
  - injection Heq as Heq. done.
  - injection Heq as _ Heq. subst d1. destruct (dashFree_no_dash _ _ H1).
  - injection Heq as _ Heq. subst d2. destruct (dashFree_no_dash _ _ H2).
  - injection Heq as Hc Heq. destruct (IH b H1 H2 Heq) as [Ha Hd]. by subst.
Qed.

(** Before the epoch the minus sign of the timestamp is a dash too. *)
Example streamSessionId_negative_time :
  streamSessionId "a" (-5) = streamSessionId "a-" 5.
Proof. reflexivity. Qed.

Lemma streamSessionId_inj (sid1 sid2 : string) (t1 t2 : Z) :
  0 ≤ t1 → 0 ≤ t2 →
  streamSessionId sid1 t1 = streamSessionId sid2 t2 → sid1 = sid2 ∧ t1 = t2.
Proof.
  intros H1 H2 Heq. unfold streamSessionId in Heq.
  apply key_split in Heq as [-> Heq]; auto using pretty_Z_dashFree.
  split; [reflexivity|]. by apply (inj pretty).
Qed.

(** ** Evaluating the service code *)

Lemma world_eta (w : World) :
  {| env := env w; activeSessions := activeSessions w; sessions := sessions w;
     sockets := sockets w; clientHandlers := clientHandlers w;
     effects := effects w; console := console w |} = w.
Proof. by destruct w. Qed.

Lemma alter_dangling {A} (f : A → A) (i : nat) (l : list A) :
  l !! i = None → alter f i l = l.
Proof.
  intros H. apply list_eq. intros j.
  destruct (decide (i = j)) as [<- | Hne].
  - by rewrite list_lookup_alter_eq, H.
  - by rewrite list_lookup_alter_ne.
Qed.

(** ** Removing a session *)

Lemma cleanupSession_absent (k : string) (w : World) :
  activeSessions w !! k = None → cleanupSession k w = (Normal tt, w).
Proof. intros H. unfold_service. by rewrite H. Qed.

(** Removal of a registered session: the object is marked inactive, its
    ElevenLabs socket (when assigned) is closed, the entry is deleted. *)
Lemma cleanupSession_present (k : string) (w : World) (vs : nat)
    (session : VoiceStreamingSession) :
  activeSessions w !! k = Some vs →
  sessions w !! vs = Some session →
  let w' := run (cleanupSession k) w in
  cleanupSession k w = (Normal tt, w')
  ∧ activeSessions w' = delete k (activeSessions w)
  ∧ sessions w' = alter deactivate vs (sessions w)
  ∧ effects w' = effects w ++ from_option (λ ws, [UpstreamClose ws]) [] session.(elevenLabsWs)
  ∧ sockets w'
    = from_option (λ ws, from_option (λ s, <[ws := closedBy s]> (sockets w))
                                     (sockets w) (sockets w !! ws))
                  (sockets w) session.(elevenLabsWs)
  ∧ clientHandlers w' = clientHandlers w.
Proof.
  intros Hk Hs. unfold_service. rewrite Hk. simpl.
  rewrite list_lookup_alter_eq, Hs. simpl.
  destruct (elevenLabsWs session) as [ws|]; simpl.
  - destruct (sockets w !! ws); repeat split; reflexivity.
  - repeat split; reflexivity || by rewrite app_nil_r.
Qed.

(** C6. Removing a key that is not in the registry changes nothing and
    raises nothing. Removing a session a second time leaves the state, the
    recorded socket closures included, as the first removal left it; for a
    registered session the second removal finds the key gone and returns
    normally. *)
Theorem cleanupSession_idempotent (k : string) (w : World) :
  (activeSessions w !! k = None → cleanupSession k w = (Normal tt, w))
  ∧ run (cleanupSession k) (run (cleanupSession k) w) = run (cleanupSession k) w
  ∧ (∀ vs session,
       activeSessions w !! k = Some vs → sessions w !! vs = Some session →
       activeSessions (run (cleanupSession k) w) !! k = None
       ∧ cleanupSession k (run (cleanupSession k) w)
         = (Normal tt, run (cleanupSession k) w)).
Proof.
  split; [apply cleanupSession_absent|]. split.
  - destruct (activeSessions w !! k) as [vs|] eqn:Hk.
    + destruct (sessions w !! vs) as [session|] eqn:Hs.
      * destruct (cleanupSession_present k w vs session Hk Hs) as (_ & Hreg & _).
        unfold run at 1. rewrite cleanupSession_absent; [reflexivity|].
        rewrite Hreg. apply lookup_delete_eq.
      * assert (run (cleanupSession k) w = w) as Hsame.
        { unfold_service. rewrite Hk. simpl.
          rewrite list_lookup_alter_eq, Hs. simpl.
          unfold setSessions. rewrite (alter_dangling _ _ _ Hs). apply world_eta. }
        by rewrite !Hsame.
    + unfold run. rewrite (cleanupSession_absent _ _ Hk). simpl.
      by rewrite (cleanupSession_absent _ _ Hk).
  - intros vs session Hk Hs.
    destruct (cleanupSession_present k w vs session Hk Hs) as (_ & Hreg & _).
    assert (activeSessions (run (cleanupSession k) w) !! k = None) as Hgone.
    { rewrite Hreg. apply lookup_delete_eq. }
    split; [exact Hgone | by apply cleanupSession_absent].
Qed.

Lemma cleanupSession_idempotent_witness :
  activeSessions (emptyWorld exampleEnv) !! "s1-1700000000000" = None
  ∧ cleanupSession "s1-1700000000000" (emptyWorld exampleEnv)
    = (Normal tt, emptyWorld exampleEnv)
  ∧ activeSessions readyWorld !! "s1-1700000000000" = Some 0%nat
  ∧ sessions readyWorld !! 0%nat = Some exampleSession
  ∧ closeCalls (run (cleanupSession "s1-1700000000000")
                  (run (cleanupSession "s1-1700000000000") readyWorld))
    = [0%nat]
  ∧ cleanupSession "s1-1700000000000"
      (run (cleanupSession "s1-1700000000000") readyWorld)
    = (Normal tt, run (cleanupSession "s1-1700000000000") readyWorld).
Proof.
  assert (activeSessions readyWorld !! "s1-1700000000000" = Some 0%nat) as Hk
    by (vm_compute; reflexivity).
  destruct (cleanupSession_idempotent "s1-1700000000000" (emptyWorld exampleEnv))
    as (Habsent & _ & _).
  destruct (cleanupSession_idempotent "s1-1700000000000" readyWorld)
    as (_ & Htwice & Hpresent).
  destruct (Hpresent 0%nat exampleSession Hk eq_refl) as (_ & Hnoop).
  split; [reflexivity|]. split; [exact (Habsent eq_refl)|].
  split; [exact Hk|]. split; [reflexivity|]. split; [|exact Hnoop].
  rewrite Htwice. vm_compute. reflexivity.
Defined.

(** ** Client frames *)

Lemma openLink_Some (w : World) (session : VoiceStreamingSession) (ws : nat) :
  openLink w session = Some ws ↔ linkOpen w session ws.
Proof.
  unfold openLink, linkOpen. split.
  - destruct (elevenLabsWs session) as [u|]; [|discriminate].
    destruct (sockets w !! u) as [s|] eqn:Hu; [|discriminate].
    case_decide; [|discriminate]. intros [= <-]. eauto.
  - intros (s & -> & -> & Hr). by rewrite decide_True.
Qed.

Lemma openLink_None (w : World) (session : VoiceStreamingSession) :
  openLink w session = None ↔ ∀ ws, ¬ linkOpen w session ws.
Proof.
  split.
  - intros H ws Hopen. apply openLink_Some in Hopen. congruence.
  - intros H. destruct (openLink w session) as [ws|] eqn:E; [|reflexivity].
    apply openLink_Some in E. destruct (H ws E).
Qed.

Lemma upstreamFrames_send (w : World) (ws : nat) (frame : JsValue) :
  upstreamFrames ws (setEffects (λ l, l ++ [UpstreamSend ws frame]) w)
  = upstreamFrames ws w ++ [frame].
Proof.
  unfold upstreamFrames. simpl. rewrite omap_app. simpl. by rewrite decide_True.
Qed.

Lemma text_input_open (w : World) (clientWs vs : nat)
    (session : VoiceStreamingSession) (message t : JsValue) (ws : nat) :
  sessions w !! vs = Some session →
  Js.getProp message "type" = Normal (JStr "text_input") →
  Js.getProp message "text" = Normal t →
  linkOpen w session ws →
  clientOnMessage clientWs vs (Normal message) w
  = (Normal tt, setEffects (λ l, l ++ [UpstreamSend ws (textFrame t)]) w).
Proof.
  intros Hs Hty Htext Hopen%openLink_Some. unfold_service.
  rewrite Hty. simpl. rewrite Htext, Hs. simpl. by rewrite Hopen.
Qed.

(** C5. A [text_input] frame handled while the session's ElevenLabs socket
    is [OPEN] sends the provider exactly [{text: t, try_trigger_generation:
    true}], written out member by member below, and does nothing else; when the socket is not [OPEN] the handler
    only writes one line to the console: nothing is sent upstream, nothing
    is thrown, and no frame goes to the client. *)
Theorem text_input_forwarded_or_dropped (w : World) (clientWs vs : nat)
    (session : VoiceStreamingSession) (message t : JsValue) :
  sessions w !! vs = Some session →
  Js.getProp message "type" = Normal (JStr "text_input") →
  Js.getProp message "text" = Normal t →
  (∀ ws, linkOpen w session ws →
     clientOnMessage clientWs vs (Normal message) w
     = (Normal tt,
        setEffects
          (λ l, l ++ [UpstreamSend ws
                        (JObj [ ("text", t);
                                ("try_trigger_generation", JBool true) ])]) w))
  ∧ ((∀ ws, ¬ linkOpen w session ws) →
     clientOnMessage clientWs vs (Normal message) w
     = (Normal tt,
        setConsole (λ l, l ++ [(LogError, "[Voice] ElevenLabs WebSocket not ready")]) w)).
Proof.
  intros Hs Hty Htext. split.
  - intros ws Hopen. by eapply text_input_open.
  - intros Hclosed%openLink_None. unfold_service.
    rewrite Hty. simpl. rewrite Htext, Hs. simpl. by rewrite Hclosed.
Qed.

Lemma text_input_forwarded_or_dropped_witness :
  sessions readyWorld !! 0%nat = Some exampleSession
  ∧ Js.getProp helloFrame "type" = Normal (JStr "text_input")
  ∧ Js.getProp helloFrame "text" = Normal (JStr "hello")
  ∧ linkOpen readyWorld exampleSession 0
  ∧ clientOnMessage 0 0 (Normal helloFrame) readyWorld
    = (Normal tt,
       setEffects
         (λ l, l ++ [UpstreamSend 0
                       (JObj [ ("text", JStr "hello");
                               ("try_trigger_generation", JBool true) ])])
         readyWorld)
  ∧ sessions connectingWorld !! 0%nat = Some exampleSession
  ∧ (∀ ws, ¬ linkOpen connectingWorld exampleSession ws)
  ∧ clientOnMessage 0 0 (Normal helloFrame) connectingWorld
    = (Normal tt,
       setConsole (λ l, l ++ [(LogError, "[Voice] ElevenLabs WebSocket not ready")])
         connectingWorld).
Proof.
  assert (linkOpen readyWorld exampleSession 0) as Hopen.
  { exists (exampleSocket OPEN). by repeat split. }
  assert (∀ ws, ¬ linkOpen connectingWorld exampleSession ws) as Hclosed.
  { by apply openLink_None. }
  destruct (text_input_forwarded_or_dropped readyWorld 0 0 exampleSession
              helloFrame (JStr "hello") eq_refl eq_refl eq_refl) as [Hsend _].
  destruct (text_input_forwarded_or_dropped connectingWorld 0 0 exampleSession
              helloFrame (JStr "hello") eq_refl eq_refl eq_refl) as [_ Hdrop].
  exact (conj eq_refl (conj eq_refl (conj eq_refl (conj Hopen
           (conj (Hsend 0%nat Hopen) (conj eq_refl
              (conj Hclosed (Hdrop Hclosed)))))))).
Defined.

(** C7. A [stop] frame handled while the session's ElevenLabs socket is
    [OPEN] sends the provider exactly [{text: "", flush: true}], written
    out member by member below. Registry,
    session objects, sockets and listeners are as before: the entry stays,
    the socket is not closed and is still [OPEN], and a following
    [text_input] frame is forwarded. *)
Theorem stop_flushes_and_session_stays (w : World) (clientWs vs : nat)
    (session : VoiceStreamingSession) (message : JsValue) (ws : nat) :
  sessions w !! vs = Some session →
  Js.getProp message "type" = Normal (JStr "stop") →
  linkOpen w session ws →
  let w' :=
    setEffects
      (λ l, l ++ [UpstreamSend ws
                    (JObj [ ("text", JStr ""); ("flush", JBool true) ])]) w in
  clientOnMessage clientWs vs (Normal message) w = (Normal tt, w')
  ∧ activeSessions w' = activeSessions w
  ∧ sessions w' = sessions w
  ∧ sockets w' = sockets w
  ∧ clientHandlers w' = clientHandlers w
  ∧ closeCalls w' = closeCalls w
  ∧ upstreamFrames ws w'
    = upstreamFrames ws w ++ [JObj [ ("text", JStr ""); ("flush", JBool true) ]]
  ∧ linkOpen w' session ws
  ∧ (∀ next t,
       Js.getProp next "type" = Normal (JStr "text_input") →
       Js.getProp next "text" = Normal t →
       upstreamFrames ws (run (clientOnMessage clientWs vs (Normal next)) w')
       = upstreamFrames ws w
           ++ [ JObj [ ("text", JStr ""); ("flush", JBool true) ];
                JObj [ ("text", t); ("try_trigger_generation", JBool true) ] ]).
Proof.
  intros Hs Hty Hopen. pose proof Hopen as Hopen'%openLink_Some.
  split; [|repeat split].
  - unfold_service. rewrite Hty. simpl. rewrite Hs. simpl. by rewrite Hopen'.
  - unfold closeCalls. simpl. rewrite omap_app. simpl. by rewrite app_nil_r.
  - apply upstreamFrames_send.
  - exact Hopen.
  - intros next t Hn Ht. unfold run.
    rewrite (text_input_open _ clientWs vs session next t ws); try done.
    simpl. rewrite !upstreamFrames_send. by rewrite <- app_assoc.
Qed.

Lemma stop_flushes_and_session_stays_witness :
  sessions readyWorld !! 0%nat = Some exampleSession
  ∧ Js.getProp stopFrame "type" = Normal (JStr "stop")
  ∧ linkOpen readyWorld exampleSession 0
  ∧ Js.getProp helloFrame "type" = Normal (JStr "text_input")
  ∧ Js.getProp helloFrame "text" = Normal (JStr "hello")
  ∧ clientOnMessage 0 0 (Normal stopFrame) readyWorld
    = (Normal tt,
       setEffects
         (λ l, l ++ [UpstreamSend 0
                       (JObj [ ("text", JStr ""); ("flush", JBool true) ])])
         readyWorld)
  ∧ upstreamFrames 0
      (run (clientOnMessage 0 0 (Normal helloFrame))
           (setEffects
              (λ l, l ++ [UpstreamSend 0
                            (JObj [ ("text", JStr ""); ("flush", JBool true) ])])
              readyWorld))
    = upstreamFrames 0 readyWorld
        ++ [ JObj [ ("text", JStr ""); ("flush", JBool true) ];
             JObj [ ("text", JStr "hello");
                    ("try_trigger_generation", JBool true) ] ].
Proof.
  assert (linkOpen readyWorld exampleSession 0) as Hopen.
  { exists (exampleSocket OPEN). by repeat split. }
  destruct (stop_flushes_and_session_stays readyWorld 0 0 exampleSession
              stopFrame 0%nat eq_refl eq_refl Hopen)
    as (Hrun & _ & _ & _ & _ & _ & _ & _ & Hnext).
  exact (conj eq_refl (conj eq_refl (conj Hopen (conj eq_refl (conj eq_refl
           (conj Hrun (Hnext helloFrame (JStr "hello") eq_refl eq_refl))))))).
Defined.

(** C8. A frame that fails to parse, or whose [type] is none of
    [audio_input], [text_input] and [stop], makes the handler write one
    console line and nothing more: no frame is sent anywhere, no state
    changes, nothing is thrown. A [stop] frame handled next has the same
    outcome as it would have had without the ignored frame. *)
Theorem unknown_or_malformed_frame_ignored (w : World) (clientWs vs : nat)
    (data : Completion JsValue) :
  knownDiscriminator data = false →
  ∃ line,
    clientOnMessage clientWs vs data w
    = (Normal tt, setConsole (λ l, l ++ [line]) w)
    ∧ sameState (setConsole (λ l, l ++ [line]) w) w
    ∧ (∀ stop,
         Js.getProp stop "type" = Normal (JStr "stop") →
         (clientOnMessage clientWs vs (Normal stop)
            (setConsole (λ l, l ++ [line]) w)).1
         = (clientOnMessage clientWs vs (Normal stop) w).1
         ∧ sameState
             (run (clientOnMessage clientWs vs (Normal stop))
                  (setConsole (λ l, l ++ [line]) w))
             (run (clientOnMessage clientWs vs (Normal stop)) w)).
Proof.
  intros Hunknown.
  assert (∀ line stop,
    Js.getProp stop "type" = Normal (JStr "stop") →
    (clientOnMessage clientWs vs (Normal stop)
       (setConsole (λ l, l ++ [line]) w)).1
    = (clientOnMessage clientWs vs (Normal stop) w).1
    ∧ sameState
        (run (clientOnMessage clientWs vs (Normal stop))
             (setConsole (λ l, l ++ [line]) w))
        (run (clientOnMessage clientWs vs (Normal stop)) w)) as Hstop.
  { intros line stop Hty. unfold_service. rewrite Hty. simpl.
    destruct (sessions w !! vs) as [session|]; simpl; [|by repeat split].
    change (openLink (setConsole (λ l, l ++ [line]) w) session)
      with (openLink w session).
    destruct (openLink w session); simpl; by repeat split. }
  destruct data as [message | e]; simpl in Hunknown.
  - destruct (Js.getProp message "type") as [type | e] eqn:Hty.
    + apply orb_false_elim in Hunknown as [Hunknown Hstopb].
      apply orb_false_elim in Hunknown as [Haudio Htext].
      exists (LogWarn, "[Voice] Unknown message type:").
      split; [|split; [by repeat split | auto]].
      unfold_service. rewrite Hty. simpl. by rewrite Haudio, Htext, Hstopb.
    + exists (LogError, "[Voice] Client message error:").
      split; [|split; [by repeat split | auto]].
      unfold_service. by rewrite Hty.
  - exists (LogError, "[Voice] Client message error:").
    split; [|split; [by repeat split | auto]]. reflexivity.
Qed.

Lemma unknown_or_malformed_frame_ignored_witness :
  knownDiscriminator (Normal pingFrame) = false
  ∧ knownDiscriminator (Throw "SyntaxError: Unexpected token") = false
  ∧ Js.getProp stopFrame "type" = Normal (JStr "stop")
  ∧ effects (run (clientOnMessage 0 0 (Normal pingFrame)) readyWorld)
    = effects readyWorld
  ∧ effects (run (clientOnMessage 0 0 (Normal stopFrame))
               (run (clientOnMessage 0 0 (Throw "SyntaxError: Unexpected token"))
                    readyWorld))
    = effects (run (clientOnMessage 0 0 (Normal stopFrame)) readyWorld).
Proof.
  destruct (unknown_or_malformed_frame_ignored readyWorld 0 0
              (Normal pingFrame) eq_refl) as (line & Hrun & Hsame & _).
  destruct (unknown_or_malformed_frame_ignored readyWorld 0 0
              (Throw "SyntaxError: Unexpected token") eq_refl)
    as (line' & Hrun' & _ & Hstop).
  destruct (Hstop stopFrame eq_refl) as (_ & Hsame').
  split; [reflexivity|]. split; [reflexivity|]. split; [reflexivity|]. split.
  - unfold run at 1. rewrite Hrun. apply Hsame.
  - unfold run at 2. rewrite Hrun'. apply Hsame'.
Defined.

(** ** Provider frames *)

Lemma getProp_defined (v : JsValue) (k : string) (x : JsValue) :
  Js.getProp v k = Normal x → Js.truthy x = true →
  ∃ fields, v = JObj fields.
Proof.
  destruct v; simpl; intros [= <-]; try discriminate. eauto.
Qed.

(** C4. A provider frame with a truthy [audio] member is forwarded to the
    client as [{type: "audio_output", audio, alignment}] carrying the
    frame's own [audio] and [alignment], written out member by member
    below. [storage.createAudioCache] is
    called exactly when [isFinal] is truthy too, and after the client send.
    Whether the storage call rejects only decides the console line written
    by [cacheAudioOutput]: the effects, the forwarded frame included, are
    the same in both cases. *)
Theorem audio_frame_forwarded_then_cached (w : World) (ws : nat)
    (s : UpstreamSocket) (session : VoiceStreamingSession)
    (response audio : JsValue) (o : CacheOracle) :
  sockets w !! ws = Some s →
  sessions w !! s.(boundSession) = Some session →
  Js.getProp response "audio" = Normal audio →
  Js.truthy audio = true →
  ∃ alignment isFinal,
    Js.getProp response "alignment" = Normal alignment
    ∧ Js.getProp response "isFinal" = Normal isFinal
    ∧ let w' := step w (UpstreamMessage ws (Normal response) o) in
      effects w'
      = effects w
          ++ ClientSend s.(boundClient)
               (JObj [ ("type", JStr "audio_output");
                       ("audio", audio);
                       ("alignment", alignment) ])
          :: (if Js.truthy isFinal
              then [CreateAudioCache
                      (audioCacheEntry session.(sessionId)
                         session.(conversationId) o.(secureToken))]
              else [])
      ∧ console w'
        = console w ++ (if Js.truthy isFinal then [cacheLogLine o] else [])
      ∧ activeSessions w' = activeSessions w
      ∧ sessions w' = sessions w
      ∧ sockets w' = sockets w
      ∧ clientHandlers w' = clientHandlers w.
Proof.
  intros Hws Hs Haudio Htruthy.
  destruct (getProp_defined _ _ _ Haudio Htruthy) as [fields ->].
  exists (Js.index fields "alignment"), (Js.index fields "isFinal").
  split; [reflexivity|]. split; [reflexivity|].
  simpl in Haudio. injection Haudio as Haudio.
  unfold_service. rewrite Hws. simpl. rewrite Haudio, Htruthy. simpl.
  destruct (Js.truthy (Js.index fields "isFinal")); simpl.
  - rewrite Hs. simpl. unfold cacheLogLine.
    destruct (storageRejects o); simpl;
      rewrite <- ?app_assoc; repeat split; reflexivity.
  - rewrite app_nil_r. repeat split; reflexivity.
Qed.

Lemma audio_frame_forwarded_then_cached_witness :
  sockets readyWorld !! 0%nat = Some (exampleSocket OPEN)
  ∧ sessions readyWorld !! (exampleSocket OPEN).(boundSession) = Some exampleSession
  ∧ Js.getProp finalAudioFrame "audio" = Normal (JStr "QUJD")
  ∧ Js.truthy (JStr "QUJD") = true
  ∧ effects (step readyWorld (UpstreamMessage 0 (Normal finalAudioFrame) exampleToken))
    = effects readyWorld
        ++ [ ClientSend 0
               (JObj [ ("type", JStr "audio_output");
                       ("audio", JStr "QUJD");
                       ("alignment", JUndefined) ]);
             CreateAudioCache (audioCacheEntry "s1-1700000000000" "c1" "tok-1") ].
Proof.
  destruct (audio_frame_forwarded_then_cached readyWorld 0
              (exampleSocket OPEN) exampleSession finalAudioFrame (JStr "QUJD")
              exampleToken eq_refl eq_refl eq_refl eq_refl)
    as (alignment & isFinal & Ha & Hf & He & _).
  injection Ha as <-. injection Hf as <-.
  exact (conj eq_refl (conj eq_refl (conj eq_refl (conj eq_refl He)))).
Defined.

Lemma payloadless_frame_dropped_aux (w : World) (ws : nat) (s : UpstreamSocket)
    (response : JsValue) (o : CacheOracle) :
  sockets w !! ws = Some s →
  (∀ audio, Js.getProp response "audio" = Normal audio → Js.truthy audio = false) →
  let w' := step w (UpstreamMessage ws (Normal response) o) in
  effects w' = effects w
  ∧ activeSessions w' = activeSessions w
  ∧ sessions w' = sessions w
  ∧ sockets w' = sockets w
  ∧ clientHandlers w' = clientHandlers w.
Proof.
  intros Hws Hfalsy. unfold_service. rewrite Hws. simpl.
  destruct (Js.getProp response "audio") as [audio | e] eqn:Haudio; simpl.
  - rewrite (Hfalsy audio eq_refl). by repeat split.
  - by repeat split.
Qed.

(** C10. A provider frame whose [audio] member is missing or falsy sends
    nothing to the client and makes no storage call, whatever its
    [isFinal] member says; registry, session objects and sockets are as
    before. *)
Theorem payloadless_frame_dropped (w : World) (ws : nat) (s : UpstreamSocket)
    (response : JsValue) (o : CacheOracle) :
  sockets w !! ws = Some s →
  (∀ audio, Js.getProp response "audio" = Normal audio → Js.truthy audio = false) →
  let w' := step w (UpstreamMessage ws (Normal response) o) in
  effects w' = effects w
  ∧ clientFrames s.(boundClient) w' = clientFrames s.(boundClient) w
  ∧ cacheCalls w' = cacheCalls w
  ∧ activeSessions w' = activeSessions w
  ∧ sessions w' = sessions w
  ∧ sockets w' = sockets w
  ∧ clientHandlers w' = clientHandlers w.
Proof.
  intros Hws Hfalsy w'. subst w'.
  destruct (payloadless_frame_dropped_aux w ws s response o Hws Hfalsy)
    as (He & Hr & Hss & Hso & Hh).
  unfold clientFrames, cacheCalls. rewrite He. by repeat split.
Qed.

Lemma payloadless_frame_dropped_witness :
  sockets readyWorld !! 0%nat = Some (exampleSocket OPEN)
  ∧ (∀ audio, Js.getProp finalOnlyFrame "audio" = Normal audio →
              Js.truthy audio = false)
  ∧ effects (step readyWorld (UpstreamMessage 0 (Normal finalOnlyFrame) exampleToken))
    = effects readyWorld
  ∧ cacheCalls (step readyWorld (UpstreamMessage 0 (Normal finalOnlyFrame) exampleToken))
    = cacheCalls readyWorld.
Proof.
  assert (∀ audio, Js.getProp finalOnlyFrame "audio" = Normal audio →
                   Js.truthy audio = false) as Hfalsy.
  { intros audio [= <-]. reflexivity. }
  destruct (payloadless_frame_dropped readyWorld 0 (exampleSocket OPEN)
              finalOnlyFrame exampleToken eq_refl Hfalsy)
    as (He & _ & Hc & _).
  exact (conj eq_refl (conj Hfalsy (conj He Hc))).
Defined.

(** The frame [{isFinal: true}] alone: nothing is sent, nothing is stored. *)
Example final_flag_without_audio (w : World) (ws : nat) (s : UpstreamSocket)
    (o : CacheOracle) :
  sockets w !! ws = Some s →
  effects (step w (UpstreamMessage ws
                     (Normal (JObj [("isFinal", JBool true)])) o))
  = effects w.
Proof.
  intros Hws.
  apply (payloadless_frame_dropped_aux w ws s _ o Hws).
  simpl. by intros audio [= <-].
Qed.

(** ** Session initialization and upstream errors *)

Lemma alter_last {A} (f : A → A) (l : list A) (x : A) :
  alter f (length l) (l ++ [x]) = l ++ [f x].
Proof.
  induction l as [| y l IH]; simpl; [reflexivity|]. by rewrite <- IH.
Qed.

Lemma elevenLabsOnError_run (w : World) (clientWs : nat) :
  elevenLabsOnError clientWs w
  = (Normal tt,
     setEffects (λ l, l ++ [ClientSend clientWs ttsErrorFrame])
       (setConsole (λ l, l ++ [(LogError, "[Voice] ElevenLabs WebSocket error:")]) w)).
Proof. reflexivity. Qed.

Lemma init_ctor_throws (w : World) (clientWs : nat)
    (sid cid personality : string) (o : InitOracle) (e : string) :
  o.(ctor) = CtorThrows e →
  let key := streamSessionId sid o.(nowKey) in
  let w' := step w (Connect clientWs sid cid personality o) in
  effects w' = effects w ++ [ClientSend clientWs initErrorFrame]
  ∧ activeSessions w' = delete key (activeSessions w)
  ∧ sessions w'
    = sessions w ++ [{| sessionId := key; conversationId := cid;
                        elevenLabsWs := None; geminiSession := None;
                        isActive := false; startTime := o.(nowStart) |}]
  ∧ sockets w' = sockets w
  ∧ clientHandlers w' = clientHandlers w.
Proof.
  intros Hctor key w'. subst w' key. unfold_service. rewrite Hctor. simpl.
  rewrite lookup_insert_eq. simpl.
  rewrite alter_last. rewrite lookup_app_r by lia.
  rewrite Nat.sub_diag. simpl.
  rewrite delete_insert_eq, ?alter_last. by repeat split.
Qed.

Lemma init_constructed (w : World) (clientWs : nat)
    (sid cid personality : string) (o : InitOracle) :
  o.(ctor) = Constructed →
  let key := streamSessionId sid o.(nowKey) in
  let w' := step w (Connect clientWs sid cid personality o) in
  effects w' = effects w ++ [ClientSend clientWs voiceReadyFrame]
  ∧ activeSessions w' = <[key := length (sessions w)]> (activeSessions w)
  ∧ sessions w'
    = sessions w ++ [{| sessionId := key; conversationId := cid;
                        elevenLabsWs := Some (length (sockets w));
                        geminiSession := None;
                        isActive := true; startTime := o.(nowStart) |}]
  ∧ sockets w'
    = sockets w ++ [{| url := elevenLabsUrl (env w); readyState := CONNECTING;
                       boundClient := clientWs;
                       boundSession := length (sessions w) |}]
  ∧ clientHandlers w' = clientHandlers w ++ [(clientWs, length (sessions w))].
Proof.
  intros Hctor key w'. subst w' key. unfold_service. rewrite Hctor. simpl.
  rewrite alter_last. by repeat split.
Qed.

Lemma clientOnClose_present (w : World) (vs : nat)
    (session : VoiceStreamingSession) :
  sessions w !! vs = Some session →
  activeSessions w !! session.(sessionId) = Some vs →
  let w' := run (clientOnClose vs) w in
  activeSessions w' = delete session.(sessionId) (activeSessions w)
  ∧ sessions w' = alter deactivate vs (sessions w)
  ∧ effects w' = effects w ++ from_option (λ ws, [UpstreamClose ws]) [] session.(elevenLabsWs)
  ∧ sockets w'
    = from_option (λ ws, from_option (λ s, <[ws := closedBy s]> (sockets w))
                                     (sockets w) (sockets w !! ws))
                  (sockets w) session.(elevenLabsWs).
Proof.
  intros Hs Hk w'. subst w'.
  set (w1 := setConsole (λ l, l ++ [(LogInfo, "[Voice] Client disconnected")]) w).
  assert (run (clientOnClose vs) w = run (cleanupSession session.(sessionId)) w1) as ->.
  { unfold clientOnClose, readSession, consoleLog, modify, getWorld, run,
      mbind, M_bind, bind, mret, M_ret, ret. simpl. by rewrite Hs. }
  destruct (cleanupSession_present session.(sessionId) w1 vs session Hk Hs)
    as (_ & Hr & Hss & He & Hso & _).
  by repeat split.
Qed.

(** C1, as stated, fails: two creations for the same [sessionId] that read
    the same [Date.now()] value get the same key. Both session objects are
    alive, and the registry holds one entry, for the second. *)
Lemma same_instant_same_key :
  (sessionId <$> sessions collidingWorld)
  = ["s1-1700000000000"; "s1-1700000000000"]
  ∧ (isActive <$> sessions collidingWorld) = [true; true]
  ∧ map_to_list (activeSessions collidingWorld) = [("s1-1700000000000", 1%nat)].
Proof. vm_compute. by repeat split. Qed.

(** C1, amended. Two creations get the same key exactly when they have the
    same [sessionId] and read the same millisecond from [Date.now()]
    (a non-negative epoch time); a creation whose key is already in the
    registry replaces that entry with the new session object. *)
Theorem sessionKey_distinct_unless_same_instant (sid1 sid2 : string) (t1 t2 : Z) :
  0 ≤ t1 → 0 ≤ t2 →
  (streamSessionId sid1 t1 = streamSessionId sid2 t2 ↔ sid1 = sid2 ∧ t1 = t2)
  ∧ (∀ w clientWs cid personality o,
       o.(ctor) = Constructed → o.(nowKey) = t1 →
       activeSessions (step w (Connect clientWs sid1 cid personality o))
       = <[streamSessionId sid1 t1 := length (sessions w)]> (activeSessions w)).
Proof.
  intros H1 H2. split.
  - split.
    + by apply streamSessionId_inj.
    + by intros [-> ->].
  - intros w clientWs cid personality o Hctor <-.
    by destruct (init_constructed w clientWs sid1 cid personality o Hctor)
      as (_ & Hr & _).
Qed.

Lemma sessionKey_distinct_unless_same_instant_witness :
  0 ≤ 1700000000000 ∧ 0 ≤ 1700000000001
  ∧ streamSessionId "s1" 1700000000000 ≠ streamSessionId "s1" 1700000000001
  ∧ exampleInit.(ctor) = Constructed
  ∧ exampleInit.(nowKey) = 1700000000000
  ∧ activeSessions connectingWorld
    = <[streamSessionId "s1" 1700000000000 := 0%nat]> ∅.
Proof.
  assert (0 ≤ 1700000000000) as H1 by lia.
  assert (0 ≤ 1700000000001) as H2 by lia.
  destruct (sessionKey_distinct_unless_same_instant "s1" "s1" _ _ H1 H2)
    as [Hiff Hreg].
  split; [exact H1|]. split; [exact H2|]. split; [|split; [|split]].
  - intros Heq. apply Hiff in Heq as [_ Heq]. discriminate Heq.
  - reflexivity.
  - reflexivity.
  - apply (Hreg (emptyWorld exampleEnv) 0%nat "c1" "AUtistic AI" exampleInit);
      reflexivity.
Defined.

(** C2, as stated, fails: the connection attempt is refused after
    [new WebSocket(url)] has returned, so the socket reports the failure
    through its error event and never opens. By then [voice_ready] has been
    sent, and the registry entry is still there after the error frame. *)
Lemma open_failure_after_ready :
  upstreamFrames 0 refusedWorld = []
  ∧ clientFrames 0 refusedWorld = [voiceReadyFrame; ttsErrorFrame]
  ∧ frameHasType "voice_ready" voiceReadyFrame = true
  ∧ activeSessions refusedWorld !! "s1-1700000000000" = Some 0%nat
  ∧ closeCalls refusedWorld = [].
Proof. vm_compute. by repeat split. Qed.

(** C2, amended. When [new WebSocket(url)] throws during initialization, no
    [voice_ready] frame is sent, the client receives exactly one error
    frame, and the session's registry entry is removed before
    [initializeVoiceSession] returns; session objects allocated earlier,
    sockets and listeners are untouched. When a connecting socket reports
    its failure through the error event, the client receives the error
    frame [TTS connection error], and registry, session objects, sockets
    and listeners are untouched. *)
Theorem synthesis_open_failure_handling (w : World) (clientWs : nat)
    (sid cid personality : string) (o : InitOracle) :
  (∀ e, o.(ctor) = CtorThrows e →
     let key := streamSessionId sid o.(nowKey) in
     let w' := step w (Connect clientWs sid cid personality o) in
     effects w' = effects w ++ [ClientSend clientWs initErrorFrame]
     ∧ frameHasType "error" initErrorFrame = true
     ∧ frameHasType "voice_ready" initErrorFrame = false
     ∧ activeSessions w' !! key = None
     ∧ (∀ k, k ≠ key → activeSessions w' !! k = activeSessions w !! k)
     ∧ (∀ vs, (vs < length (sessions w))%nat → sessions w' !! vs = sessions w !! vs)
     ∧ sockets w' = sockets w
     ∧ clientHandlers w' = clientHandlers w)
  ∧ (∀ ws s,
       sockets w !! ws = Some s → s.(readyState) = CONNECTING →
       let w' := step w (UpstreamError ws) in
       effects w' = effects w ++ [ClientSend s.(boundClient) ttsErrorFrame]
       ∧ frameHasType "error" ttsErrorFrame = true
       ∧ activeSessions w' = activeSessions w
       ∧ sessions w' = sessions w
       ∧ sockets w' = sockets w
       ∧ clientHandlers w' = clientHandlers w).
Proof.
  split.
  - intros e Hctor key w'.
    destruct (init_ctor_throws w clientWs sid cid personality o e Hctor)
      as (He & Hr & Hss & Hso & Hh).
    subst w' key. rewrite He, Hr, Hss, Hso, Hh.
    repeat split.
    + apply lookup_delete_eq.
    + intros k Hk. by apply lookup_delete_ne.
    + intros vs Hvs. by apply lookup_app_l.
  - intros ws s Hws _ w'. subst w'. unfold step. rewrite Hws.
    unfold run. rewrite elevenLabsOnError_run. by repeat split.
Qed.

Lemma synthesis_open_failure_handling_witness :
  throwingInit.(ctor) = CtorThrows "SyntaxError: Invalid URL"
  ∧ clientFrames 0 failedInitWorld = [initErrorFrame]
  ∧ activeSessions failedInitWorld !! "s1-1700000000000" = None
  ∧ sockets connectingWorld !! 0%nat = Some (exampleSocket CONNECTING)
  ∧ (exampleSocket CONNECTING).(readyState) = CONNECTING
  ∧ effects refusedWorld
    = effects connectingWorld ++ [ClientSend 0 ttsErrorFrame].
Proof.
  destruct (synthesis_open_failure_handling (emptyWorld exampleEnv) 0
              "s1" "c1" "AUtistic AI" throwingInit) as [Hthrow _].
  destruct (Hthrow _ eq_refl) as (He & _ & _ & Hr & _).
  destruct (synthesis_open_failure_handling connectingWorld 0
              "s1" "c1" "AUtistic AI" exampleInit) as [_ Hasync].
  assert (sockets connectingWorld !! 0%nat = Some (exampleSocket CONNECTING))
    as Hs by reflexivity.
  destruct (Hasync 0%nat _ Hs eq_refl) as (He' & _).
  split; [reflexivity|]. split; [|split; [|split; [|split]]].
  - unfold clientFrames, failedInitWorld. rewrite He. reflexivity.
  - exact Hr.
  - exact Hs.
  - reflexivity.
  - exact He'.
Defined.

(** C3, as stated, fails: after the socket has opened, an error event makes
    the service send the one error frame, but it does not call [close()] on
    the socket and the session's registry entry stays. *)
Lemma upstream_error_no_teardown :
  clientFrames 0 erroredWorld = [voiceReadyFrame; ttsErrorFrame]
  ∧ closeCalls erroredWorld = []
  ∧ activeSessions erroredWorld !! "s1-1700000000000" = Some 0%nat
  ∧ listenersOf 0 erroredWorld = [0%nat].
Proof. vm_compute. by repeat split. Qed.

(** C3, amended. An error event on a session's ElevenLabs socket makes the
    service send the client exactly one error frame, [TTS connection
    error]; the handler does not close the socket and does not remove the
    registry entry, and registry, session objects, sockets and listeners
    are as before. The teardown happens when the client socket closes: for
    a registered session whose listener is the only one on that client
    socket, the close event calls [close()] on the ElevenLabs socket and
    deletes the registry entry. *)
Theorem upstream_error_reported_once (w : World) (ws : nat) (s : UpstreamSocket) :
  sockets w !! ws = Some s →
  let w' := step w (UpstreamError ws) in
  effects w' = effects w ++ [ClientSend s.(boundClient) ttsErrorFrame]
  ∧ clientFrames s.(boundClient) w'
    = clientFrames s.(boundClient) w ++ [ttsErrorFrame]
  ∧ closeCalls w' = closeCalls w
  ∧ activeSessions w' = activeSessions w
  ∧ sessions w' = sessions w
  ∧ sockets w' = sockets w
  ∧ clientHandlers w' = clientHandlers w
  ∧ (∀ session,
       listenersOf s.(boundClient) w = [s.(boundSession)] →
       sessions w !! s.(boundSession) = Some session →
       session.(elevenLabsWs) = Some ws →
       activeSessions w !! session.(sessionId) = Some s.(boundSession) →
       let w'' := step w' (ClientClose s.(boundClient)) in
       effects w'' = effects w' ++ [UpstreamClose ws]
       ∧ activeSessions w'' = delete session.(sessionId) (activeSessions w)
       ∧ sockets w'' = <[ws := closedBy s]> (sockets w)).
Proof.
  intros Hws w'. subst w'.
  set (w1 := setEffects (λ l, l ++ [ClientSend s.(boundClient) ttsErrorFrame])
               (setConsole (λ l, l ++ [(LogError, "[Voice] ElevenLabs WebSocket error:")]) w)).
  assert (step w (UpstreamError ws) = w1) as ->.
  { unfold step. rewrite Hws. unfold run. by rewrite elevenLabsOnError_run. }
  split; [reflexivity|]. split; [|split]; [| |repeat (split; [reflexivity|])].
  - unfold clientFrames. simpl. rewrite omap_app. simpl. by rewrite decide_True.
  - unfold closeCalls. simpl. rewrite omap_app. simpl. by rewrite app_nil_r.
  - intros session Hl Hs Hlink Hk w''. subst w''.
    assert (step w1 (ClientClose s.(boundClient))
            = run (clientOnClose s.(boundSession)) w1) as ->.
    { unfold step.
      change (listenersOf (boundClient s) w1) with (listenersOf (boundClient s) w).
      by rewrite Hl. }
    destruct (clientOnClose_present w1 s.(boundSession) session Hs Hk)
      as (Hr & _ & He & Hso).
    rewrite Hr, He, Hso, Hlink. simpl. rewrite Hws. by repeat split.
Qed.

Lemma upstream_error_reported_once_witness :
  sockets readyWorld !! 0%nat = Some (exampleSocket OPEN)
  ∧ listenersOf 0 readyWorld = [0%nat]
  ∧ sessions readyWorld !! 0%nat = Some exampleSession
  ∧ exampleSession.(elevenLabsWs) = Some 0%nat
  ∧ activeSessions readyWorld !! "s1-1700000000000" = Some 0%nat
  ∧ clientFrames 0 erroredWorld = clientFrames 0 readyWorld ++ [ttsErrorFrame]
  ∧ activeSessions (step erroredWorld (ClientClose 0))
    = delete "s1-1700000000000" (activeSessions readyWorld).
Proof.
  assert (sockets readyWorld !! 0%nat = Some (exampleSocket OPEN)) as Hws
    by reflexivity.
  assert (listenersOf 0 readyWorld = [0%nat]) as Hl by reflexivity.
  assert (sessions readyWorld !! 0%nat = Some exampleSession) as Hs
    by reflexivity.
  assert (activeSessions readyWorld !! "s1-1700000000000" = Some 0%nat) as Hk
    by (vm_compute; reflexivity).
  destruct (upstream_error_reported_once readyWorld 0%nat _ Hws)
    as (_ & Hframes & _ & _ & _ & _ & _ & Hclose).
  destruct (Hclose exampleSession Hl Hs eq_refl Hk) as (_ & Hr & _).
  exact (conj Hws (conj Hl (conj Hs (conj eq_refl (conj Hk (conj Hframes Hr)))))).
Defined.

(** ** Addresses always resolve

    Every address kept in the registry, in a listener or in a session
    object points to an allocated object, in every state the service can
    reach; [readSession] therefore never throws there. *)

Lemma sameObjects_wf (w w' : World) : sameObjects w w' → wf w → wf w'.
Proof.
  intros (Hr & Hs & Hso & Hh) [H1 H2 H3 H4].
  split; rewrite ?Hr, ?Hs, ?Hso, ?Hh; assumption.
Qed.

Lemma clientOnMessage_sameObjects (w : World) (clientWs vs : nat)
    (data : Completion JsValue) :
  sameObjects w (run (clientOnMessage clientWs vs data) w).
Proof.
  unfold_service. unfold sameObjects.
  destruct data as [message | e]; simpl; [|done].
  destruct (Js.getProp message "type") as [type | e]; simpl; [|done].
  destruct (Js.strictEqStr type "audio_input"); simpl.
  { by destruct (Js.getProp message "audio"). }
  destruct (Js.strictEqStr type "text_input"); simpl.
  { destruct (Js.getProp message "text"); simpl; [|done].
    destruct (sessions w !! vs) as [session|]; simpl; [|done].
    by destruct (openLink w session). }
  destruct (Js.strictEqStr type "stop"); simpl; [|done].
  destruct (sessions w !! vs) as [session|]; simpl; [|done].
  by destruct (openLink w session).
Qed.

Lemma elevenLabsOnMessage_sameObjects (w : World) (clientWs vs : nat)
    (data : Completion JsValue) (o : CacheOracle) :
  sameObjects w (run (elevenLabsOnMessage clientWs vs data o) w).
Proof.
  unfold_service. unfold sameObjects.
  destruct data as [response | e]; simpl; [|done].
  destruct (Js.getProp response "audio") as [audio | e]; simpl; [|done].
  destruct (Js.truthy audio); simpl; [|done].
  destruct (Js.getProp response "alignment"); simpl; [|done].
  destruct (Js.getProp response "isFinal") as [isFinal | e]; simpl; [|done].
  destruct (Js.truthy isFinal); simpl; [|done].
  destruct (sessions w !! vs) as [session|]; simpl; [|done].
  by destruct (storageRejects o).
Qed.

Lemma cleanupSession_wf (k : string) (w : World) :
  wf w → wf (run (cleanupSession k) w).
Proof.
  intros Hwf. destruct (activeSessions w !! k) as [vs|] eqn:Hk.
  - destruct (lookup_lt_is_Some_2 (sessions w) vs (wf_registry w Hwf _ _ Hk))
      as [session Hs].
    destruct (cleanupSession_present k w vs session Hk Hs)
      as (_ & Hr & Hss & _ & Hso & Hh).
    destruct Hwf as [H1 H2 H3 H4].
    assert (length (sockets (run (cleanupSession k) w)) = length (sockets w)) as Hlen.
    { rewrite Hso. destruct (elevenLabsWs session) as [ws|]; simpl; [|done].
      destruct (sockets w !! ws); simpl; [|done]. apply length_insert. }
    split; rewrite ?Hr, ?Hss, ?Hh, ?Hlen, ?length_alter.
    + intros k' vs' Hk'. apply lookup_delete_Some in Hk' as [_ Hk']. eauto.
    + intros ws s. rewrite Hso.
      destruct (elevenLabsWs session) as [u|]; simpl; [|by eauto].
      destruct (sockets w !! u) as [su|] eqn:Hu; simpl; [|by eauto].
      destruct (decide (u = ws)) as [-> | Hne].
      * rewrite list_lookup_insert_eq by (by eapply lookup_lt_Some).
        intros [= <-]. simpl. eauto.
      * rewrite list_lookup_insert_ne by done. eauto.
    + eauto.
    + intros vs' session' ws. rewrite list_lookup_alter.
      case_decide as Hd.
      * subst vs'. rewrite Hs. simpl. intros [= <-]. simpl. eauto.
      * eauto.
  - unfold run. by rewrite cleanupSession_absent.
Qed.

Lemma clientOnClose_wf (vs : nat) (w : World) : wf w → wf (run (clientOnClose vs) w).
Proof.
  intros Hwf.
  set (w1 := setConsole (λ l, l ++ [(LogInfo, "[Voice] Client disconnected")]) w).
  assert (wf w1) as Hwf1 by (by apply (sameObjects_wf w)).
  destruct (sessions w !! vs) as [session|] eqn:Hs.
  - assert (run (clientOnClose vs) w = run (cleanupSession session.(sessionId)) w1) as ->.
    { unfold clientOnClose, readSession, consoleLog, modify, getWorld, run,
        mbind, M_bind, bind, mret, M_ret, ret. simpl. by rewrite Hs. }
    by apply cleanupSession_wf.
  - assert (run (clientOnClose vs) w = w1) as ->; [|done].
    unfold clientOnClose, readSession, consoleLog, modify, getWorld, run, throw,
      mbind, M_bind, bind, mret, M_ret, ret. simpl. by rewrite Hs.
Qed.

Lemma setReadyState_wf (r : ReadyState) (ws : nat) (w : World) :
  wf w → wf (setSockets (alter (setReadyState r) ws) w).
Proof.
  intros [H1 H2 H3 H4]. split; simpl; try assumption.
  - intros u s. rewrite list_lookup_alter. case_decide as Hd.
    + subst u. destruct (sockets w !! ws) as [s0|] eqn:Hu; simpl; [|done].
      intros [= <-]. simpl. eauto.
    + eauto.
  - intros vs session u Hs Hl. rewrite length_alter. eauto.
Qed.

Lemma initializeVoiceSession_wf (w : World) (clientWs : nat)
    (sid cid personality : string) (o : InitOracle) :
  wf w → wf (step w (Connect clientWs sid cid personality o)).
Proof.
  intros [H1 H2 H3 H4]. destruct (ctor o) as [| e] eqn:Hctor.
  - destruct (init_constructed w clientWs sid cid personality o Hctor)
      as (_ & Hr & Hs & Hso & Hh).
    split; rewrite ?Hr, ?Hs, ?Hso, ?Hh, ?length_app; simpl.
    + intros k vs. rewrite lookup_insert. case_decide.
      * intros [= <-]. lia.
      * intros Hk. apply H1 in Hk. lia.
    + intros ws s Hws. apply lookup_app_Some in Hws as [Hws | [_ Hws]].
      * apply H2 in Hws. lia.
      * destruct (ws - length (sockets w))%nat; [|done].
        injection Hws as <-. simpl. lia.
    + intros c vs Hin. apply elem_of_app in Hin as [Hin | Hin].
      * apply H3 in Hin. lia.
      * apply list_elem_of_singleton in Hin as [= -> ->]. lia.
    + intros vs session ws Hvs Hl. apply lookup_app_Some in Hvs as [Hvs | [_ Hvs]].
      * apply (H4 _ _ _ Hvs) in Hl. lia.
      * destruct (vs - length (sessions w))%nat; [|done].
        injection Hvs as <-. simpl in Hl. injection Hl as <-. lia.
  - destruct (init_ctor_throws w clientWs sid cid personality o e Hctor)
      as (_ & Hr & Hs & Hso & Hh).
    split; rewrite ?Hr, ?Hs, ?Hso, ?Hh, ?length_app; simpl.
    + intros k vs Hk. apply lookup_delete_Some in Hk as [_ Hk].
      apply H1 in Hk. lia.
    + intros ws s Hws. apply H2 in Hws. lia.
    + intros c vs Hin. apply H3 in Hin. lia.
    + intros vs session ws Hvs Hl. apply lookup_app_Some in Hvs as [Hvs | [_ Hvs]].
      * eauto.
      * destruct (vs - length (sessions w))%nat; [|done].
        injection Hvs as <-. discriminate Hl.
Qed.

Lemma foldl_wf (f : nat → World → World) (l : list nat) (w : World) :
  (∀ vs w0, wf w0 → wf (f vs w0)) → wf w → wf (foldl (λ w' vs, f vs w') w l).
Proof.
  intros Hf. revert w. induction l as [| vs l IH]; simpl; auto.
Qed.

Theorem step_wf (w : World) (ev : Event) : wf w → wf (step w ev).
Proof.
  intros Hwf. destruct ev as [c sid cid p o | ws | ws data o | ws | ws | c data | c].
  - by apply initializeVoiceSession_wf.
  - simpl. destruct (sockets w !! ws) as [s|]; [|done].
    case_decide; [|done].
    eapply sameObjects_wf; [|by apply (setReadyState_wf OPEN ws)].
    by repeat split.
  - simpl. destruct (sockets w !! ws) as [s|]; [|done].
    eapply sameObjects_wf; [apply elevenLabsOnMessage_sameObjects | done].
  - simpl. destruct (sockets w !! ws) as [s|]; [|done].
    eapply sameObjects_wf; [|done]. by repeat split.
  - by apply setReadyState_wf.
  - simpl. apply (foldl_wf (λ vs w', run (clientOnMessage c vs data) w')); [|done].
    intros vs w0 H0. eapply sameObjects_wf; [apply clientOnMessage_sameObjects | done].
  - simpl. apply (foldl_wf (λ vs w', run (clientOnClose vs) w')); [|done].
    intros vs w0 H0. by apply clientOnClose_wf.
Qed.

Lemma emptyWorld_wf (e : Env) : wf (emptyWorld e).
Proof. split; simpl; intros *; try done. by intros ?%elem_of_nil. Qed.

Theorem steps_wf (e : Env) (evs : list Event) : wf (steps (emptyWorld e) evs).
Proof.
  unfold steps. generalize (emptyWorld_wf e). generalize (emptyWorld e).
  induction evs as [| ev evs IH]; simpl; auto using step_wf.
Qed.

(** In a reachable state the session object of every listener is there. *)
Corollary listener_session_resolves (e : Env) (evs : list Event) (c vs : nat) :
  (c, vs) ∈ clientHandlers (steps (emptyWorld e) evs) →
  is_Some (sessions (steps (emptyWorld e) evs) !! vs).
Proof.
  intros Hin. apply lookup_lt_is_Some_2.
  exact (wf_handlers _ (steps_wf e evs) c vs Hin).
Qed.

(** In a reachable state the session object an ElevenLabs socket's
    listeners close over is there. *)
Corollary socket_session_resolves (e : Env) (evs : list Event) (ws : nat)
    (s : UpstreamSocket) :
  sockets (steps (emptyWorld e) evs) !! ws = Some s →
  is_Some (sessions (steps (emptyWorld e) evs) !! s.(boundSession)).
Proof.
  intros Hws. apply lookup_lt_is_Some_2.
  exact (wf_sockets _ (steps_wf e evs) ws s Hws).
Qed.

(** * Further properties of the service *)

(** ** What each listener can do *)

Lemma onlyEmits_refl (w : World) : onlyEmits w w [].
Proof. unfold onlyEmits, sameObjects. by rewrite app_nil_r. Qed.

Lemma onlyEmits_console (w : World) (f : list (LogLevel * string) → list (LogLevel * string)) :
  onlyEmits w (setConsole f w) [].
Proof. unfold onlyEmits, sameObjects. simpl. by rewrite app_nil_r. Qed.

Lemma clientOnMessage_emits (w : World) (clientWs vs : nat)
    (data : Completion JsValue) :
  (clientOnMessage clientWs vs data w).1 = Normal tt
  ∧ ∃ l, onlyEmits w (run (clientOnMessage clientWs vs data) w) l
         ∧ (l = []
            ∨ l = [ClientSend clientWs audioProcessingFrame]
            ∨ ∃ session ws d,
                sessions w !! vs = Some session ∧ linkOpen w session ws
                ∧ l = [UpstreamSend ws (directiveFrame d)]).
Proof.
  unfold_service. unfold onlyEmits, sameObjects.
  destruct data as [message | e]; simpl;
    [|split; [done|]; exists []; rewrite app_nil_r; by auto 10].
  destruct (Js.getProp message "type") as [type | e]; simpl;
    [|split; [done|]; exists []; rewrite app_nil_r; by auto 10].
  destruct (Js.strictEqStr type "audio_input"); simpl.
  { destruct (Js.getProp message "audio"); simpl.
    - split; [done|]. eexists. split; [by repeat split|]. auto.
    - split; [done|]. exists []. rewrite app_nil_r. by auto 10. }
  destruct (Js.strictEqStr type "text_input"); simpl.
  { destruct (Js.getProp message "text") as [t | e]; simpl;
      [|split; [done|]; exists []; rewrite app_nil_r; by auto 10].
    destruct (sessions w !! vs) as [session|] eqn:Hs; simpl;
      [|split; [done|]; exists []; rewrite app_nil_r; by auto 10].
    destruct (openLink w session) as [ws|] eqn:Ho; simpl.
    - split; [done|]. eexists. split; [by repeat split|].
      right. right. exists session, ws, (SendText t).
      apply openLink_Some in Ho. by repeat split.
    - split; [done|]. exists []. rewrite app_nil_r. by auto 10. }
  destruct (Js.strictEqStr type "stop"); simpl;
    [|split; [done|]; exists []; rewrite app_nil_r; by auto 10].
  destruct (sessions w !! vs) as [session|] eqn:Hs; simpl;
    [|split; [done|]; exists []; rewrite app_nil_r; by auto 10].
  destruct (openLink w session) as [ws|] eqn:Ho; simpl.
  - split; [done|]. eexists. split; [by repeat split|].
    right. right. exists session, ws, Flush.
    apply openLink_Some in Ho. by repeat split.
  - split; [done|]. exists []. rewrite app_nil_r. by auto 10.
Qed.

Lemma elevenLabsOnMessage_emits (w : World) (clientWs vs : nat)
    (data : Completion JsValue) (o : CacheOracle) :
  (elevenLabsOnMessage clientWs vs data o w).1 = Normal tt
  ∧ ∃ l, onlyEmits w (run (elevenLabsOnMessage clientWs vs data o) w) l
         ∧ (l = []
            ∨ ∃ frame, frameHasType "audio_output" frame = true
                ∧ (l = [ClientSend clientWs frame]
                   ∨ ∃ session,
                       sessions w !! vs = Some session
                       ∧ l = [ClientSend clientWs frame;
                              CreateAudioCache
                                (audioCacheEntry session.(sessionId)
                                   session.(conversationId) o.(secureToken))])).
Proof.
  unfold_service. unfold onlyEmits, sameObjects.
  destruct data as [response | e]; simpl;
    [|split; [done|]; exists []; rewrite app_nil_r; by auto 10].
  destruct (Js.getProp response "audio") as [audio | e]; simpl;
    [|split; [done|]; exists []; rewrite app_nil_r; by auto 10].
  destruct (Js.truthy audio); simpl;
    [|split; [done|]; exists []; rewrite app_nil_r; by auto 10].
  destruct (Js.getProp response "alignment") as [alignment | e]; simpl;
    [|split; [done|]; exists []; rewrite app_nil_r; by auto 10].
  destruct (Js.getProp response "isFinal") as [isFinal | e]; simpl.
  2: { split; [done|]. eexists. split; [by repeat split|].
       right. exists (audioOutputFrame audio alignment). split; [done|]. by left. }
  destruct (Js.truthy isFinal); simpl.
  2: { split; [done|]. eexists. split; [by repeat split|].
       right. exists (audioOutputFrame audio alignment). split; [done|]. by left. }
  destruct (sessions w !! vs) as [session|] eqn:Hs; simpl.
  2: { split; [done|]. eexists. split; [by repeat split|].
       right. exists (audioOutputFrame audio alignment). split; [done|]. by left. }
  destruct (storageRejects o); simpl.
  - split; [done|]. eexists. split; [split; [done|]; split; [by repeat split|];
      by rewrite <- app_assoc|].
    right. exists (audioOutputFrame audio alignment). split; [done|].
    right. by exists session.
  - split; [done|]. eexists. split; [split; [done|]; split; [by repeat split|];
      by rewrite <- app_assoc|].
    right. exists (audioOutputFrame audio alignment). split; [done|].
    right. by exists session.
Qed.

Lemma onlyEmits_trans (w1 w2 w3 : World) (l1 l2 : list Effect) :
  onlyEmits w1 w2 l1 → onlyEmits w2 w3 l2 → onlyEmits w1 w3 (l1 ++ l2).
Proof.
  intros (He1 & (Ha1 & Hb1 & Hc1 & Hd1) & Hf1) (He2 & (Ha2 & Hb2 & Hc2 & Hd2) & Hf2).
  unfold onlyEmits, sameObjects.
  rewrite He2, He1, Ha2, Ha1, Hb2, Hb1, Hc2, Hc1, Hd2, Hd1, Hf2, Hf1.
  by rewrite app_assoc.
Qed.

Lemma onlyEmits_linkOpen (w w' : World) (l : list Effect)
    (session : VoiceStreamingSession) (ws : nat) :
  onlyEmits w w' l → linkOpen w session ws → linkOpen w' session ws.
Proof.
  intros (_ & (_ & _ & Hso & _) & _) (s & Hl & Hs & Hr).
  exists s. by rewrite Hso.
Qed.

Lemma onlyEmits_listenersOf (w w' : World) (l : list Effect) (c : nat) :
  onlyEmits w w' l → listenersOf c w' = listenersOf c w.
Proof.
  intros (_ & (_ & _ & _ & Hh) & _). unfold listenersOf. by rewrite Hh.
Qed.

Lemma clientFrames_app (c : nat) (w w' : World) (l : list Effect) :
  effects w' = effects w ++ l →
  clientFrames c w'
  = clientFrames c w
      ++ omap (λ e, match e with
                    | ClientSend c' f => if decide (c' = c) then Some f else None
                    | _ => None
                    end) l.
Proof. intros He. unfold clientFrames. by rewrite He, omap_app. Qed.

Lemma upstreamFrames_app (ws : nat) (w w' : World) (l : list Effect) :
  effects w' = effects w ++ l →
  upstreamFrames ws w'
  = upstreamFrames ws w
      ++ omap (λ e, match e with
                    | UpstreamSend u f => if decide (u = ws) then Some f else None
                    | _ => None
                    end) l.
Proof. intros He. unfold upstreamFrames. by rewrite He, omap_app. Qed.

Lemma closeCalls_app (w w' : World) (l : list Effect) :
  effects w' = effects w ++ l →
  closeCalls w'
  = closeCalls w
      ++ omap (λ e, match e with UpstreamClose u => Some u | _ => None end) l.
Proof. intros He. unfold closeCalls. by rewrite He, omap_app. Qed.

Lemma cacheCalls_app (w w' : World) (l : list Effect) :
  effects w' = effects w ++ l →
  cacheCalls w'
  = cacheCalls w
      ++ omap (λ e, match e with CreateAudioCache x => Some x | _ => None end) l.
Proof. intros He. unfold cacheCalls. by rewrite He, omap_app. Qed.

Lemma omap_replicate_None {A B} (f : A → option B) (n : nat) (x : A) :
  f x = None → omap f (replicate n x) = [].
Proof.
  intros Hx. induction n as [| n IH]; [reflexivity|].
  change (replicate (S n) x) with ([x] ++ replicate n x).
  rewrite omap_app, IH. simpl. by rewrite Hx.
Qed.

(** A directive handled while the link is open. *)
Lemma directive_open (w : World) (clientWs vs : nat)
    (session : VoiceStreamingSession) (message : JsValue) (d : Directive)
    (ws : nat) :
  sessions w !! vs = Some session →
  carries message d →
  linkOpen w session ws →
  clientOnMessage clientWs vs (Normal message) w
  = (Normal tt, setEffects (λ l, l ++ [UpstreamSend ws (directiveFrame d)]) w).
Proof.
  intros Hs Hd Hopen%openLink_Some. destruct d as [t|]; simpl in Hd.
  - destruct Hd as [Hty Ht]. unfold_service.
    rewrite Hty. simpl. rewrite Ht, Hs. simpl. by rewrite Hopen.
  - unfold_service. rewrite Hd. simpl. rewrite Hs. simpl. by rewrite Hopen.
Qed.

(** A directive handled while the link is not open. *)
Lemma directive_closed (w : World) (clientWs vs : nat)
    (session : VoiceStreamingSession) (message : JsValue) (d : Directive) :
  sessions w !! vs = Some session →
  carries message d →
  (∀ ws, ¬ linkOpen w session ws) →
  (clientOnMessage clientWs vs (Normal message) w).1 = Normal tt
  ∧ onlyEmits w (run (clientOnMessage clientWs vs (Normal message)) w) [].
Proof.
  intros Hs Hd Hclosed%openLink_None. destruct d as [t|]; simpl in Hd.
  - destruct Hd as [Hty Ht]. unfold_service.
    rewrite Hty. simpl. rewrite Ht, Hs. simpl. rewrite Hclosed.
    split; [done|]. apply onlyEmits_console.
  - unfold_service. rewrite Hd. simpl. rewrite Hs. simpl. rewrite Hclosed.
    split; [done|]. apply onlyEmits_refl.
Qed.

Lemma audio_input_ack (w : World) (clientWs vs : nat) (message : JsValue) :
  Js.getProp message "type" = Normal (JStr "audio_input") →
  clientOnMessage clientWs vs (Normal message) w
  = (Normal tt, setEffects (λ l, l ++ [ClientSend clientWs audioProcessingFrame]) w).
Proof.
  intros Hty. unfold_service. rewrite Hty. simpl.
  destruct message; try discriminate Hty. reflexivity.
Qed.

(** ** Client frames *)

(** X1. An [audio_input] frame is acknowledged once by every listener
    registered on the client socket, whatever the frame's payload and the
    state of the link; nothing goes to the provider. *)
Theorem audio_input_acknowledged_per_listener (w : World) (clientWs : nat)
    (message : JsValue) :
  Js.getProp message "type" = Normal (JStr "audio_input") →
  let w' := step w (ClientMessage clientWs (Normal message)) in
  effects w'
  = effects w
      ++ replicate (length (listenersOf clientWs w))
                   (ClientSend clientWs audioProcessingFrame)
  ∧ sameObjects w w'
  ∧ ∀ ws, upstreamFrames ws w' = upstreamFrames ws w.
Proof.
  intros Hty w'.
  assert (effects w'
          = effects w ++ replicate (length (listenersOf clientWs w))
                                   (ClientSend clientWs audioProcessingFrame)
          ∧ sameObjects w w') as [He Hsame].
  { subst w'. unfold step. generalize (listenersOf clientWs w) as vss.
    intros vss. revert w. induction vss as [| vs vss IH]; intros w; simpl.
    - by rewrite app_nil_r.
    - assert (run (clientOnMessage clientWs vs (Normal message)) w
              = setEffects (λ l, l ++ [ClientSend clientWs audioProcessingFrame]) w)
        as ->.
      { unfold run. by rewrite audio_input_ack. }
      destruct (IH (setEffects (λ l, l ++ [ClientSend clientWs audioProcessingFrame]) w))
        as [He Hsame].
      split; [rewrite He; simpl; by rewrite <- app_assoc | exact Hsame]. }
  split; [exact He|]. split; [exact Hsame|].
  intros ws. rewrite (upstreamFrames_app ws w w' _ He).
  rewrite omap_replicate_None by done. by rewrite app_nil_r.
Qed.

Lemma audio_input_acknowledged_per_listener_witness :
  Js.getProp audioInputFrame "type" = Normal (JStr "audio_input")
  ∧ effects (step connectingWorld (ClientMessage 0 (Normal audioInputFrame)))
    = effects connectingWorld
        ++ replicate (length (listenersOf 0 connectingWorld))
                     (ClientSend 0 audioProcessingFrame)
  ∧ length (listenersOf 0 connectingWorld) = 1%nat.
Proof.
  destruct (audio_input_acknowledged_per_listener connectingWorld 0
              audioInputFrame eq_refl) as (He & _).
  exact (conj eq_refl (conj He eq_refl)).
Defined.

Lemma steps_cons (w : World) (ev : Event) (evs : list Event) :
  steps w (ev :: evs) = steps (step w ev) evs.
Proof. reflexivity. Qed.

Lemma steps_app (w : World) (evs1 evs2 : list Event) :
  steps w (evs1 ++ evs2) = steps (steps w evs1) evs2.
Proof. unfold steps. apply foldl_app. Qed.

Lemma step_single_listener (w : World) (clientWs vs : nat)
    (data : Completion JsValue) :
  listenersOf clientWs w = [vs] →
  step w (ClientMessage clientWs data) = run (clientOnMessage clientWs vs data) w.
Proof. intros Hl. simpl. by rewrite Hl. Qed.

(** X2. With one listener on the client socket and the link open, the
    provider receives one wire frame per directive, in the order the client
    sent them; the client receives nothing and no state changes. *)
Theorem directives_reach_provider_in_order (messages : list JsValue)
    (ds : list Directive) (w : World) (clientWs vs : nat)
    (session : VoiceStreamingSession) (ws : nat) :
  Forall2 carries messages ds →
  listenersOf clientWs w = [vs] →
  sessions w !! vs = Some session →
  linkOpen w session ws →
  let w' := steps w ((λ m, ClientMessage clientWs (Normal m)) <$> messages) in
  effects w' = effects w ++ ((λ d, UpstreamSend ws (directiveFrame d)) <$> ds)
  ∧ upstreamFrames ws w' = upstreamFrames ws w ++ (directiveFrame <$> ds)
  ∧ clientFrames clientWs w' = clientFrames clientWs w
  ∧ sameObjects w w'.
Proof.
  intros Hds Hl Hs Hopen w'.
  assert (effects w'
          = effects w ++ ((λ d, UpstreamSend ws (directiveFrame d)) <$> ds)
          ∧ sameObjects w w') as [He Hsame].
  { subst w'. revert w Hl Hs Hopen.
    induction Hds as [| m d messages ds Hd Hds IH]; intros w Hl Hs Hopen.
    - simpl. rewrite app_nil_r. by repeat split.
    - rewrite fmap_cons, steps_cons, (step_single_listener _ _ vs) by done.
      unfold run at 1 2.
      rewrite (directive_open w clientWs vs session m d ws Hs Hd Hopen). simpl.
      set (w1 := setEffects (λ l, l ++ [UpstreamSend ws (directiveFrame d)]) w).
      destruct (IH w1 Hl Hs Hopen) as [He Hsame].
      split; [rewrite He; simpl; by rewrite <- app_assoc | exact Hsame]. }
  split; [exact He|]. split; [|split; [|exact Hsame]].
  - rewrite (upstreamFrames_app ws w w' _ He). f_equal.
    clear. induction ds as [| d ds IH]; [reflexivity|].
    rewrite !fmap_cons. change (?x :: ?l) with ([x] ++ l) at 1.
    rewrite omap_app, IH. simpl. by rewrite decide_True.
  - rewrite (clientFrames_app clientWs w w' _ He).
    rewrite <- (app_nil_r (clientFrames clientWs w)) at 2. f_equal.
    clear. induction ds as [| d ds IH]; [reflexivity|].
    rewrite fmap_cons. change (?x :: ?l) with ([x] ++ l).
    by rewrite omap_app, IH.
Qed.

Lemma directives_reach_provider_in_order_witness :
  Forall2 carries [helloFrame; stopFrame; helloFrame]
          [SendText (JStr "hello"); Flush; SendText (JStr "hello")]
  ∧ listenersOf 0 readyWorld = [0%nat]
  ∧ sessions readyWorld !! 0%nat = Some exampleSession
  ∧ linkOpen readyWorld exampleSession 0
  ∧ upstreamFrames 0
      (steps readyWorld [ ClientMessage 0 (Normal helloFrame);
                          ClientMessage 0 (Normal stopFrame);
                          ClientMessage 0 (Normal helloFrame) ])
    = upstreamFrames 0 readyWorld
        ++ [textFrame (JStr "hello"); flushFrame; textFrame (JStr "hello")].
Proof.
  assert (Forall2 carries [helloFrame; stopFrame; helloFrame]
            [SendText (JStr "hello"); Flush; SendText (JStr "hello")]) as Hds.
  { repeat constructor. }
  assert (linkOpen readyWorld exampleSession 0) as Hopen.
  { exists (exampleSocket OPEN). by repeat split. }
  destruct (directives_reach_provider_in_order _ _ readyWorld 0 0
              exampleSession 0 Hds eq_refl eq_refl Hopen) as (_ & Hup & _).
  exact (conj Hds (conj eq_refl (conj eq_refl (conj Hopen Hup)))).
Defined.

Lemma client_message_fold (clientWs : nat) (data : Completion JsValue)
    (vss : list nat) (w : World) :
  ∃ l,
    onlyEmits w
      (foldl (λ w' vs, run (clientOnMessage clientWs vs data) w') w vss) l
    ∧ Forall (λ e,
        e = ClientSend clientWs audioProcessingFrame
        ∨ ∃ vs session ws d,
            vs ∈ vss ∧ sessions w !! vs = Some session
            ∧ linkOpen w session ws
            ∧ e = UpstreamSend ws (directiveFrame d)) l.
Proof.
  revert w. induction vss as [| vs vss IH]; intros w; simpl.
  - exists []. split; [apply onlyEmits_refl | constructor].
  - destruct (clientOnMessage_emits w clientWs vs data) as (_ & l1 & Hl1 & Hshape).
    destruct (IH (run (clientOnMessage clientWs vs data) w)) as (l2 & Hl2 & Hall).
    exists (l1 ++ l2). split; [by eapply onlyEmits_trans|].
    apply Forall_app. split.
    + destruct Hshape as [-> | [-> | (session & ws & d & Hs & Ho & ->)]].
      * constructor.
      * constructor; [by left | constructor].
      * constructor; [|constructor]. right. exists vs, session, ws, d.
        repeat split; try done. apply list_elem_of_here.
    + eapply Forall_impl; [exact Hall|]. simpl.
      intros e [-> | (vs' & session & ws & d & Hin & Hs & Ho & ->)]; [by left|].
      right. exists vs', session, ws, d.
      destruct Hl1 as (_ & (_ & Hss & Hso & _) & _).
      repeat split.
      * by apply list_elem_of_further.
      * by rewrite <- Hss.
      * destruct Ho as (s & Hl & Hsock & Hr). exists s. by rewrite <- Hso.
Qed.

(** X3. Whatever a client sends, its listeners complete without throwing,
    and the event changes no registry entry, session object, socket or
    listener; it closes no socket, stores nothing, sends no frame to any
    other client, and sends upstream only on the links of the sessions
    listening on that client socket. *)
Theorem client_frame_confined (w : World) (clientWs : nat)
    (data : Completion JsValue) :
  let w' := step w (ClientMessage clientWs data) in
  (∀ w0 vs, (clientOnMessage clientWs vs data w0).1 = Normal tt)
  ∧ sameObjects w w'
  ∧ closeCalls w' = closeCalls w
  ∧ cacheCalls w' = cacheCalls w
  ∧ (∀ c, c ≠ clientWs → clientFrames c w' = clientFrames c w)
  ∧ (∀ ws,
       (∀ vs session, vs ∈ listenersOf clientWs w →
          sessions w !! vs = Some session → session.(elevenLabsWs) ≠ Some ws) →
       upstreamFrames ws w' = upstreamFrames ws w).
Proof.
  intros w'. split.
  { intros w0 vs. apply clientOnMessage_emits. }
  destruct (client_message_fold clientWs data (listenersOf clientWs w) w)
    as (l & (_ & Hsame & He) & Hall).
  fold (step w (ClientMessage clientWs data)) in Hsame, He. fold w' in Hsame, He.
  split; [exact Hsame|]. split; [|split; [|split]].
  - rewrite (closeCalls_app w w' l He).
    rewrite <- (app_nil_r (closeCalls w)) at 2. f_equal.
    clear He. induction Hall as [| e l He Hall IH]; [reflexivity|].
    change (e :: l) with ([e] ++ l). rewrite omap_app, IH.
    by destruct He as [-> | (? & ? & ? & ? & _ & _ & _ & ->)].
  - rewrite (cacheCalls_app w w' l He).
    rewrite <- (app_nil_r (cacheCalls w)) at 2. f_equal.
    clear He. induction Hall as [| e l He Hall IH]; [reflexivity|].
    change (e :: l) with ([e] ++ l). rewrite omap_app, IH.
    by destruct He as [-> | (? & ? & ? & ? & _ & _ & _ & ->)].
  - intros c Hc. rewrite (clientFrames_app c w w' l He).
    rewrite <- (app_nil_r (clientFrames c w)) at 2. f_equal.
    clear He. induction Hall as [| e l He Hall IH]; [reflexivity|].
    change (e :: l) with ([e] ++ l). rewrite omap_app, IH.
    destruct He as [-> | (? & ? & ? & ? & _ & _ & _ & ->)]; simpl; [|done].
    by rewrite decide_False by done.
  - intros ws Hws. rewrite (upstreamFrames_app ws w w' l He).
    rewrite <- (app_nil_r (upstreamFrames ws w)) at 2. f_equal.
    clear He. induction Hall as [| e l He Hall IH]; [reflexivity|].
    change (e :: l) with ([e] ++ l). rewrite omap_app, IH.
    destruct He as [-> | (vs & session & u & d & Hin & Hs & (s & Hl & _) & ->)];
      simpl; [done|].
    rewrite decide_False; [done|]. intros ->. by apply (Hws vs session).
Qed.

Lemma client_frame_confined_witness :
  (∀ vs session, vs ∈ listenersOf 0 readyWorld →
     sessions readyWorld !! vs = Some session →
     session.(elevenLabsWs) ≠ Some 7%nat)
  ∧ 1%nat ≠ 0%nat
  ∧ clientFrames 1 (step readyWorld (ClientMessage 0 (Normal helloFrame)))
    = clientFrames 1 readyWorld
  ∧ upstreamFrames 7 (step readyWorld (ClientMessage 0 (Normal helloFrame)))
    = upstreamFrames 7 readyWorld.
Proof.
  assert (∀ vs session, vs ∈ listenersOf 0 readyWorld →
            sessions readyWorld !! vs = Some session →
            session.(elevenLabsWs) ≠ Some 7%nat) as Hother.
  { intros vs session Hin%list_elem_of_singleton Hs. subst vs.
    injection Hs as <-. discriminate. }
  assert (1%nat ≠ 0%nat) as Hne by discriminate.
  destruct (client_frame_confined readyWorld 0 (Normal helloFrame))
    as (_ & _ & _ & _ & Hc & Hu).
  exact (conj Hother (conj Hne (conj (Hc 1%nat Hne) (Hu 7%nat Hother)))).
Defined.

(** ** Provider frames *)

(** X4. Whatever the provider sends, parse failures included, the message
    listener changes no registry entry, session object, socket or listener,
    sends nothing upstream, closes nothing and sends nothing to any other
    client. What it adds to the effects is nothing, or one [audio_output]
    frame to its own client, or that frame followed by one storage call, in
    this order; a frame that fails to parse has no effect. *)
Theorem provider_frame_confined (w : World) (ws : nat) (s : UpstreamSocket)
    (data : Completion JsValue) (o : CacheOracle) :
  sockets w !! ws = Some s →
  let w' := step w (UpstreamMessage ws data o) in
  sameObjects w w'
  ∧ (effects w' = effects w
     ∨ ∃ frame,
         frameHasType "audio_output" frame = true
         ∧ (effects w' = effects w ++ [ClientSend s.(boundClient) frame]
            ∨ ∃ entry,
                effects w'
                = effects w ++ [ ClientSend s.(boundClient) frame;
                                 CreateAudioCache entry ]))
  ∧ (∀ u, upstreamFrames u w' = upstreamFrames u w)
  ∧ closeCalls w' = closeCalls w
  ∧ (∀ c, c ≠ s.(boundClient) → clientFrames c w' = clientFrames c w)
  ∧ (clientFrames s.(boundClient) w' = clientFrames s.(boundClient) w
     ∨ ∃ frame, frameHasType "audio_output" frame = true
         ∧ clientFrames s.(boundClient) w'
           = clientFrames s.(boundClient) w ++ [frame])
  ∧ (length (cacheCalls w') ≤ S (length (cacheCalls w)))%nat
  ∧ (∀ e, data = Throw e → effects w' = effects w).
Proof.
  intros Hws w'.
  destruct (elevenLabsOnMessage_emits w s.(boundClient) s.(boundSession) data o)
    as (_ & l & (_ & Hsame & He) & Hshape).
  assert (step w (UpstreamMessage ws data o)
          = run (elevenLabsOnMessage s.(boundClient) s.(boundSession) data o) w)
    as Hstep by (simpl; by rewrite Hws).
  rewrite <- Hstep in Hsame, He. fold w' in Hsame, He.
  split; [exact Hsame|].
  assert (∀ e, data = Throw e → effects w' = effects w) as Hparse.
  { intros e ->. subst w'. simpl. by rewrite Hws. }
  destruct Hshape as [-> | (frame & Hty & [-> | (session & Hs & ->)])].
  - rewrite app_nil_r in He. unfold upstreamFrames, closeCalls, clientFrames,
      cacheCalls. rewrite He. repeat split; auto.
  - split; [right; exists frame; by auto|].
    split; [|split; [|split; [|split; [|split]]]]; try done.
    + intros u. rewrite (upstreamFrames_app u w w' _ He). simpl. apply app_nil_r.
    + rewrite (closeCalls_app w w' _ He). simpl. apply app_nil_r.
    + intros c Hc. rewrite (clientFrames_app c w w' _ He). simpl.
      rewrite decide_False by done. apply app_nil_r.
    + right. exists frame. split; [done|].
      rewrite (clientFrames_app _ w w' _ He). simpl. by rewrite decide_True.
    + rewrite (cacheCalls_app w w' _ He). simpl. rewrite app_nil_r. lia.
  - split; [right; exists frame; split; [done|]; right; by eexists|].
    split; [|split; [|split; [|split; [|split]]]]; try done.
    + intros u. rewrite (upstreamFrames_app u w w' _ He). simpl. apply app_nil_r.
    + rewrite (closeCalls_app w w' _ He). simpl. apply app_nil_r.
    + intros c Hc. rewrite (clientFrames_app c w w' _ He). simpl.
      rewrite decide_False by done. apply app_nil_r.
    + right. exists frame. split; [done|].
      rewrite (clientFrames_app _ w w' _ He). simpl. by rewrite decide_True.
    + rewrite (cacheCalls_app w w' _ He). simpl. rewrite length_app. simpl. lia.
Qed.

Lemma provider_frame_confined_witness :
  sockets readyWorld !! 0%nat = Some (exampleSocket OPEN)
  ∧ effects (step readyWorld
               (UpstreamMessage 0 (Throw "SyntaxError: Unexpected end of JSON input")
                  exampleToken))
    = effects readyWorld
  ∧ upstreamFrames 0 (step readyWorld
                        (UpstreamMessage 0 (Normal finalAudioFrame) exampleToken))
    = upstreamFrames 0 readyWorld
  ∧ (effects (step readyWorld
                (UpstreamMessage 0 (Normal finalAudioFrame) exampleToken))
     = effects readyWorld
     ∨ ∃ frame,
         frameHasType "audio_output" frame = true
         ∧ (effects (step readyWorld
                       (UpstreamMessage 0 (Normal finalAudioFrame) exampleToken))
            = effects readyWorld ++ [ClientSend 0 frame]
            ∨ ∃ entry,
                effects (step readyWorld
                           (UpstreamMessage 0 (Normal finalAudioFrame) exampleToken))
                = effects readyWorld ++ [ClientSend 0 frame; CreateAudioCache entry])).
Proof.
  destruct (provider_frame_confined readyWorld 0 (exampleSocket OPEN)
              (Throw "SyntaxError: Unexpected end of JSON input") exampleToken
              eq_refl) as (_ & _ & _ & _ & _ & _ & _ & Hparse).
  destruct (provider_frame_confined readyWorld 0 (exampleSocket OPEN)
              (Normal finalAudioFrame) exampleToken eq_refl)
    as (_ & Hshape & Hup & _).
  exact (conj eq_refl (conj (Hparse _ eq_refl) (conj (Hup 0%nat) Hshape))).
Defined.

(** ** Session initialization *)

Lemma listenersOf_snoc (w : World) (c c' vs : nat) (hs : list (nat * nat)) :
  clientHandlers w = hs ++ [(c', vs)] →
  listenersOf c w
  = (snd <$> filter (λ h, h.1 = c) hs) ++ (if decide (c' = c) then [vs] else []).
Proof.
  intros Hh. unfold listenersOf. rewrite Hh, filter_app, fmap_app. f_equal.
  rewrite filter_cons, filter_nil. simpl. by case_decide.
Qed.

Lemma init_env (w : World) (clientWs : nat) (sid cid personality : string)
    (o : InitOracle) :
  env (step w (Connect clientWs sid cid personality o)) = env w.
Proof.
  unfold_service. destruct (ctor o); simpl; [reflexivity|].
  rewrite lookup_insert_eq. simpl.
  rewrite list_lookup_alter_eq, lookup_app_r, Nat.sub_diag by lia. reflexivity.
Qed.

(** X5. The personality chosen for a session only shows in the console: two
    creations that differ in nothing but the personality leave the same
    registry, objects, sockets and listeners and send the same frames. *)
Theorem personality_leaves_no_trace (w : World) (clientWs : nat)
    (sid cid personality personality' : string) (o : InitOracle) :
  sameState (step w (Connect clientWs sid cid personality o))
            (step w (Connect clientWs sid cid personality' o)).
Proof.
  unfold sameState. rewrite !init_env. destruct (ctor o) as [| e] eqn:Hctor.
  - destruct (init_constructed w clientWs sid cid personality o Hctor)
      as (He & Hr & Hs & Hso & Hh).
    destruct (init_constructed w clientWs sid cid personality' o Hctor)
      as (He' & Hr' & Hs' & Hso' & Hh').
    by rewrite He, Hr, Hs, Hso, Hh, He', Hr', Hs', Hso', Hh'.
  - destruct (init_ctor_throws w clientWs sid cid personality o e Hctor)
      as (He & Hr & Hs & Hso & Hh).
    destruct (init_ctor_throws w clientWs sid cid personality' o e Hctor)
      as (He' & Hr' & Hs' & Hso' & Hh').
    by rewrite He, Hr, Hs, Hso, Hh, He', Hr', Hs', Hso', Hh'.
Qed.

(** X6. [voice_ready] is sent while the ElevenLabs socket is still
    connecting. A directive that arrives before the socket's open event
    is dropped; after the open event the provider first gets the voice
    settings frame, then the directives. *)
Theorem directives_wait_for_open (w : World) (clientWs : nat)
    (sid cid personality : string) (o : InitOracle)
    (message : JsValue) (d : Directive) :
  o.(ctor) = Constructed →
  listenersOf clientWs w = [] →
  carries message d →
  let ws := length (sockets w) in
  let ready := step w (Connect clientWs sid cid personality o) in
  let early := step ready (ClientMessage clientWs (Normal message)) in
  let late := steps ready [UpstreamOpen ws; ClientMessage clientWs (Normal message)] in
  effects ready = effects w ++ [ClientSend clientWs voiceReadyFrame]
  ∧ readyState <$> sockets ready !! ws = Some CONNECTING
  ∧ effects early = effects ready
  ∧ sameObjects ready early
  ∧ effects late
    = effects ready ++ [ UpstreamSend ws (voiceSettingsFrame (env w));
                         UpstreamSend ws (directiveFrame d) ].
Proof.
  intros Hctor Hl Hd ws ready early late.
  destruct (init_constructed w clientWs sid cid personality o Hctor)
    as (He & Hr & Hs & Hso & Hh).
  fold ready in He, Hr, Hs, Hso, Hh. fold ws in Hs, Hso.
  set (vs := length (sessions w)) in *.
  set (session := {| sessionId := streamSessionId sid (nowKey o);
                     conversationId := cid; elevenLabsWs := Some ws;
                     geminiSession := None; isActive := true;
                     startTime := nowStart o |}) in *.
  assert (listenersOf clientWs ready = [vs]) as Hl'.
  { rewrite (listenersOf_snoc ready clientWs clientWs vs _ Hh).
    fold (listenersOf clientWs w). rewrite Hl. simpl. by rewrite decide_True. }
  assert (sessions ready !! vs = Some session) as Hvs.
  { rewrite Hs. by rewrite lookup_app_r, Nat.sub_diag by (subst vs; lia). }
  assert (sockets ready !! ws
          = Some {| url := elevenLabsUrl (env w); readyState := CONNECTING;
                    boundClient := clientWs; boundSession := vs |}) as Hws.
  { rewrite Hso. by rewrite lookup_app_r, Nat.sub_diag by (subst ws; lia). }
  split; [exact He|]. split; [by rewrite Hws|].
  assert (∀ u, ¬ linkOpen ready session u) as Hclosed.
  { intros u (s & Hlink & Hu & Hopen). injection Hlink as <-.
    rewrite Hws in Hu. injection Hu as <-. discriminate Hopen. }
  destruct (directive_closed ready clientWs vs session message d Hvs Hd Hclosed)
    as (_ & _ & Hsame & Hee).
  assert (early = run (clientOnMessage clientWs vs (Normal message)) ready) as Hearly.
  { subst early. by apply step_single_listener. }
  rewrite Hearly. rewrite app_nil_r in Hee. split; [exact Hee|].
  split; [exact Hsame|].
  subst late. rewrite steps_cons.
  set (opened := step ready (UpstreamOpen ws)).
  assert (opened
          = run (elevenLabsOnOpen ws)
                (setSockets (alter (setReadyState OPEN) ws) ready)) as Hopened.
  { subst opened. simpl. rewrite Hws. simpl. reflexivity. }
  assert (effects opened
          = effects ready ++ [UpstreamSend ws (voiceSettingsFrame (env w))]
          ∧ sessions opened = sessions ready
          ∧ clientHandlers opened = clientHandlers ready
          ∧ sockets opened = alter (setReadyState OPEN) ws (sockets ready))
    as (Heo & Hso' & Hho & Hsko).
  { rewrite Hopened. unfold_service. simpl.
    change (env ready) with (env (step w (Connect clientWs sid cid personality o))).
    rewrite init_env. by repeat split. }
  assert (linkOpen opened session ws) as Hopen.
  { eexists. split; [reflexivity|]. rewrite Hsko, list_lookup_alter_eq, Hws.
    simpl. by split. }
  assert (listenersOf clientWs opened = [vs]) as Hlo.
  { unfold listenersOf. rewrite Hho. exact Hl'. }
  assert (sessions opened !! vs = Some session) as Hvso by (by rewrite Hso').
  change (steps opened [ClientMessage clientWs (Normal message)])
    with (step opened (ClientMessage clientWs (Normal message))).
  rewrite (step_single_listener opened clientWs vs _ Hlo). unfold run.
  rewrite (directive_open opened clientWs vs session message d ws Hvso Hd Hopen).
  simpl. rewrite Heo. by rewrite <- app_assoc.
Qed.

Lemma directives_wait_for_open_witness :
  exampleInit.(ctor) = Constructed
  ∧ listenersOf 0 (emptyWorld exampleEnv) = []
  ∧ carries helloFrame (SendText (JStr "hello"))
  ∧ effects (step connectingWorld (ClientMessage 0 (Normal helloFrame)))
    = effects connectingWorld
  ∧ effects (steps connectingWorld
               [UpstreamOpen 0; ClientMessage 0 (Normal helloFrame)])
    = effects connectingWorld
        ++ [ UpstreamSend 0 (voiceSettingsFrame exampleEnv);
             UpstreamSend 0 (textFrame (JStr "hello")) ].
Proof.
  assert (carries helloFrame (SendText (JStr "hello"))) as Hd by (by split).
  destruct (directives_wait_for_open (emptyWorld exampleEnv) 0 "s1" "c1"
              "AUtistic AI" exampleInit helloFrame (SendText (JStr "hello"))
              eq_refl eq_refl Hd) as (_ & _ & Hearly & _ & Hlate).
  exact (conj eq_refl (conj eq_refl (conj Hd (conj Hearly Hlate)))).
Defined.

(** X7. When [new WebSocket(url)] throws, no listener is registered on the
    client socket: frames the client sends afterwards, and its close event,
    change nothing at all. *)
Theorem failed_initialization_leaves_no_listener (w : World) (clientWs : nat)
    (sid cid personality : string) (o : InitOracle) (e : string) :
  o.(ctor) = CtorThrows e →
  listenersOf clientWs w = [] →
  let failed := step w (Connect clientWs sid cid personality o) in
  listenersOf clientWs failed = []
  ∧ (∀ data, step failed (ClientMessage clientWs data) = failed)
  ∧ step failed (ClientClose clientWs) = failed.
Proof.
  intros Hctor Hl failed.
  destruct (init_ctor_throws w clientWs sid cid personality o e Hctor)
    as (_ & _ & _ & _ & Hh).
  assert (listenersOf clientWs failed = []) as Hl'.
  { unfold listenersOf. subst failed. by rewrite Hh. }
  split; [exact Hl'|]. split.
  - intros data. simpl. by rewrite Hl'.
  - simpl. by rewrite Hl'.
Qed.

Lemma failed_initialization_leaves_no_listener_witness :
  throwingInit.(ctor) = CtorThrows "SyntaxError: Invalid URL"
  ∧ listenersOf 0 (emptyWorld exampleEnv) = []
  ∧ step failedInitWorld (ClientMessage 0 (Normal helloFrame)) = failedInitWorld
  ∧ step failedInitWorld (ClientClose 0) = failedInitWorld.
Proof.
  destruct (failed_initialization_leaves_no_listener (emptyWorld exampleEnv) 0
              "s1" "c1" "AUtistic AI" throwingInit _ eq_refl eq_refl)
    as (_ & Hmsg & Hclose).
  exact (conj eq_refl (conj eq_refl (conj (Hmsg _) Hclose))).
Defined.

(** ** Every event is a sequence of listener runs *)

Lemma cleanup_env (k : string) (w : World) :
  env (run (cleanupSession k) w) = env w.
Proof.
  unfold_service. destruct (activeSessions w !! k) as [vs|]; simpl; [|done].
  destruct (alter deactivate vs (sessions w) !! vs) as [session|]; simpl; [|done].
  by destruct (elevenLabsWs session).
Qed.

Lemma cleanupSession_micro (k : string) (w : World) :
  rtc micro w (run (cleanupSession k) w).
Proof.
  destruct (activeSessions w !! k) as [vs|] eqn:Hk.
  - destruct (sessions w !! vs) as [session|] eqn:Hs.
    + destruct (cleanupSession_present k w vs session Hk Hs)
        as (_ & Hr & Hss & He & Hso & Hh).
      apply rtc_once. eapply micro_cleanup; eauto using cleanup_env.
    + apply rtc_once. apply (micro_emit _ _ []); [|constructor].
      unfold_service. rewrite Hk. simpl.
      rewrite list_lookup_alter_eq, Hs. simpl.
      unfold onlyEmits, sameObjects. simpl.
      rewrite (alter_dangling _ _ _ Hs), app_nil_r. by repeat split.
  - unfold run. rewrite (cleanupSession_absent _ _ Hk). apply rtc_refl.
Qed.

Lemma clientOnClose_micro (vs : nat) (w : World) :
  rtc micro w (run (clientOnClose vs) w).
Proof.
  set (w1 := setConsole (λ l, l ++ [(LogInfo, "[Voice] Client disconnected")]) w).
  assert (micro w w1) as Hlog.
  { apply (micro_emit _ _ []); [apply onlyEmits_console | constructor]. }
  destruct (sessions w !! vs) as [session|] eqn:Hs.
  - assert (run (clientOnClose vs) w = run (cleanupSession session.(sessionId)) w1) as ->.
    { unfold clientOnClose, readSession, consoleLog, modify, getWorld, run,
        mbind, M_bind, bind, mret, M_ret, ret. simpl. by rewrite Hs. }
    eapply rtc_l; [exact Hlog | apply cleanupSession_micro].
  - assert (run (clientOnClose vs) w = w1) as ->; [|by apply rtc_once].
    unfold clientOnClose, readSession, consoleLog, modify, getWorld, run, throw,
      mbind, M_bind, bind, mret, M_ret, ret. simpl. by rewrite Hs.
Qed.

Lemma clientOnMessage_micro (clientWs vs : nat) (data : Completion JsValue)
    (w : World) :
  rtc micro w (run (clientOnMessage clientWs vs data) w).
Proof.
  destruct (clientOnMessage_emits w clientWs vs data) as (_ & l & Hl & Hshape).
  apply rtc_once.
  destruct Hshape as [-> | [-> | (session & ws & d & Hs & Ho & ->)]].
  - by apply (micro_emit _ _ []).
  - eapply micro_emit; [exact Hl|]. by repeat constructor.
  - by eapply micro_send.
Qed.

Lemma foldl_micro (f : nat → World → World) (l : list nat) (w : World) :
  (∀ x w0, rtc micro w0 (f x w0)) → rtc micro w (foldl (λ w' x, f x w') w l).
Proof.
  intros Hf. revert w. induction l as [| x l IH]; intros w; simpl.
  - apply rtc_refl.
  - etrans; [apply Hf | apply IH].
Qed.

Lemma step_micro (w : World) (ev : Event) : rtc micro w (step w ev).
Proof.
  destruct ev as [c sid cid p o | ws | ws data o | ws | ws | c data | c].
  - apply rtc_once. destruct (ctor o) as [| e] eqn:Hctor.
    + destruct (init_constructed w c sid cid p o Hctor) as (He & Hr & Hs & Hso & Hh).
      eapply micro_created; eauto using init_env.
    + destruct (init_ctor_throws w c sid cid p o e Hctor) as (He & Hr & Hs & Hso & Hh).
      eapply micro_failed; eauto using init_env.
  - simpl. destruct (sockets w !! ws) as [s|] eqn:Hws; [|apply rtc_refl].
    case_decide as Hr; [|apply rtc_refl].
    apply rtc_once. by eapply (micro_opened _ _ ws s).
  - simpl. destruct (sockets w !! ws) as [s|] eqn:Hws; [|apply rtc_refl].
    destruct (elevenLabsOnMessage_emits w s.(boundClient) s.(boundSession) data o)
      as (_ & l & Hl & Hshape).
    apply rtc_once. eapply micro_emit; [exact Hl|].
    destruct Hshape as [-> | (frame & _ & [-> | (session & _ & ->)])];
      by repeat constructor.
  - simpl. destruct (sockets w !! ws) as [s|] eqn:Hws; [|apply rtc_refl].
    apply rtc_once. apply (micro_emit _ _ [ClientSend s.(boundClient) ttsErrorFrame]).
    + unfold run. rewrite elevenLabsOnError_run. by repeat split.
    + by repeat constructor.
  - apply rtc_once. by apply (micro_closed _ _ ws).
  - simpl. apply (foldl_micro (λ vs w', run (clientOnMessage c vs data) w')).
    intros vs w0. apply clientOnMessage_micro.
  - simpl. apply (foldl_micro (λ vs w', run (clientOnClose vs) w')).
    intros vs w0. apply clientOnClose_micro.
Qed.

(** ** What every reachable state satisfies *)

Lemma elem_of_closeCalls (ws : nat) (w : World) :
  ws ∈ closeCalls w ↔ UpstreamClose ws ∈ effects w.
Proof.
  unfold closeCalls. rewrite list_elem_of_omap. split.
  - intros (e & Hin & He). destruct e; try discriminate. by injection He as ->.
  - intros Hin. by exists (UpstreamClose ws).
Qed.

Lemma harmless_closeCalls (w w' : World) (l : list Effect) :
  effects w' = effects w ++ l → Forall harmless l → closeCalls w' = closeCalls w.
Proof.
  intros He Hl. rewrite (closeCalls_app w w' l He).
  assert (omap (λ e, match e with UpstreamClose u => Some u | _ => None end) l
          = []) as ->; [|apply app_nil_r].
  clear He. induction Hl as [| e l Hh Hl IH]; [reflexivity|].
  change (e :: l) with ([e] ++ l). rewrite omap_app, IH.
  destruct e; simpl in *; done.
Qed.

Lemma harmless_upstreamFrames (w w' : World) (l : list Effect) (ws : nat) :
  effects w' = effects w ++ l → Forall harmless l →
  upstreamFrames ws w' = upstreamFrames ws w.
Proof.
  intros He Hl. rewrite (upstreamFrames_app ws w w' l He).
  assert (omap (λ e, match e with
                     | UpstreamSend u f => if decide (u = ws) then Some f else None
                     | _ => None
                     end) l = []) as ->; [|apply app_nil_r].
  clear He. induction Hl as [| e l Hh Hl IH]; [reflexivity|].
  change (e :: l) with ([e] ++ l). rewrite omap_app, IH.
  destruct e; simpl in *; done.
Qed.

Lemma quiet_snoc (l : list Effect) (e : Effect) :
  quietAfterClose l →
  (∀ ws frame, e = UpstreamSend ws frame → UpstreamClose ws ∉ l) →
  quietAfterClose (l ++ [e]).
Proof.
  intros Hq He pre post ws frame Heq Hin.
  destruct post as [| x post _] using rev_ind; [by apply elem_of_nil in Hin|].
  rewrite app_comm_cons, app_assoc in Heq.
  apply app_inj_tail in Heq as [Hl Hx]. subst x.
  apply elem_of_app in Hin as [Hin | Hin].
  - by apply (Hq pre post ws frame).
  - apply list_elem_of_singleton in Hin. apply (He ws frame); [done|].
    rewrite Hl. apply elem_of_app. right. apply list_elem_of_here.
Qed.

Lemma quiet_app_harmless (l l' : list Effect) :
  quietAfterClose l → Forall harmless l' → quietAfterClose (l ++ l').
Proof.
  intros Hq Hl. revert l Hq. induction Hl as [| e l' He Hl IH]; intros l Hq.
  - by rewrite app_nil_r.
  - change (e :: l') with ([e] ++ l'). rewrite app_assoc. apply IH.
    apply quiet_snoc; [done|]. intros ws frame ->. destruct He.
Qed.

Lemma consistent_emit (w w' : World) (l : list Effect) :
  onlyEmits w w' l → Forall harmless l → consistent w → consistent w'.
Proof.
  intros (Henv & (Hr & Hs & Hso & Hh) & He) Hl [F1 F2 F3 F4 F5 F6 F7].
  pose proof (harmless_closeCalls w w' l He Hl) as Hc.
  pose proof (λ ws, harmless_upstreamFrames w w' l ws He Hl) as Hu.
  split; rewrite ?Hr, ?Hs, ?Hso, ?Hc, ?Henv; try assumption.
  - intros ws. rewrite Hu. apply F6.
  - rewrite He. by apply quiet_app_harmless.
Qed.

Lemma consistent_send (w w' : World) (vs : nat) (session : VoiceStreamingSession)
    (ws : nat) (frame : JsValue) :
  sessions w !! vs = Some session → linkOpen w session ws →
  onlyEmits w w' [UpstreamSend ws frame] → consistent w → consistent w'.
Proof.
  intros Hvs (s & Hlink & Hws & Hopen) (Henv & (Hr & Hs & Hso & Hh) & He)
    [F1 F2 F3 F4 F5 F6 F7].
  assert (closeCalls w' = closeCalls w) as Hc.
  { rewrite (closeCalls_app w w' _ He). simpl. apply app_nil_r. }
  assert (ws ∉ closeCalls w) as Hnot.
  { intros (s' & session' & Hws' & Hno & _)%F4. congruence. }
  split; rewrite ?Hr, ?Hs, ?Hso, ?Hc, ?Henv; try assumption.
  - intros u. rewrite (upstreamFrames_app u w w' _ He). simpl.
    specialize (F6 u). destruct (decide (ws = u)) as [<- | Hne].
    + rewrite Hws in F6 |- *. destruct F6 as (Hconn & Hop & Hhead).
      split; [intros; congruence|]. split.
      * intros _. by destruct (upstreamFrames ws w).
      * destruct (upstreamFrames ws w) as [| f0 r0] eqn:Hf;
          [by destruct (Hop Hopen)|].
        simpl. intros f rest [= <- _]. by eapply Hhead.
    + rewrite app_nil_r. exact F6.
  - rewrite He. apply quiet_snoc; [done|].
    intros u f [= <- _]. by rewrite <- elem_of_closeCalls.
Qed.

Lemma lookup_snoc_inv {A} (l : list A) (x y : A) (i : nat) :
  (l ++ [x]) !! i = Some y → l !! i = Some y ∨ (i = length l ∧ y = x).
Proof.
  intros H. apply lookup_app_Some in H as [H | [Hi H]]; [by left|].
  right. destruct (i - length l)%nat eqn:E; [|done].
  injection H as <-. split; [lia | done].
Qed.

Lemma consistent_created (w w' : World) (clientWs : nat) (key cid : string) (t : Z) :
  env w' = env w →
  effects w' = effects w ++ [ClientSend clientWs voiceReadyFrame] →
  activeSessions w' = <[key := length (sessions w)]> (activeSessions w) →
  sessions w'
  = sessions w ++ [{| sessionId := key; conversationId := cid;
                      elevenLabsWs := Some (length (sockets w));
                      geminiSession := None; isActive := true;
                      startTime := t |}] →
  sockets w'
  = sockets w ++ [{| url := elevenLabsUrl (env w); readyState := CONNECTING;
                     boundClient := clientWs;
                     boundSession := length (sessions w) |}] →
  consistent w → consistent w'.
Proof.
  intros Henv He Hr Hs Hso [F1 F2 F3 F4 F5 F6 F7].
  assert (Forall harmless [ClientSend clientWs voiceReadyFrame]) as Hl
    by (by repeat constructor).
  pose proof (harmless_closeCalls w w' _ He Hl) as Hc.
  pose proof (λ ws, harmless_upstreamFrames w w' _ ws He Hl) as Hu.
  split; rewrite ?Hc; try assumption.
  - intros k vs. rewrite Hr, Hs, lookup_insert. case_decide as Hk.
    + intros [= <-]. subst k. eexists.
      split; [by rewrite lookup_app_r, Nat.sub_diag by lia | done].
    + intros (session & Hvs & Hid & Ha)%F1. exists session.
      by rewrite (lookup_app_l_Some _ _ _ _ Hvs).
  - intros vs session ws. rewrite Hs, Hso.
    intros [Hvs | [-> ->]]%lookup_snoc_inv Hlink.
    + destruct (F2 vs session ws Hvs Hlink) as (s & Hws & Hb).
      exists s. by rewrite (lookup_app_l_Some _ _ _ _ Hws).
    + injection Hlink as <-. eexists.
      split; [by rewrite lookup_app_r, Nat.sub_diag by lia | reflexivity].
  - intros ws s. rewrite Hs, Hso. intros [Hws | [-> ->]]%lookup_snoc_inv.
    + destruct (F3 ws s Hws) as (session & Hvs & Hlink).
      exists session. by rewrite (lookup_app_l_Some _ _ _ _ Hvs).
    + simpl. eexists.
      split; [by rewrite lookup_app_r, Nat.sub_diag by lia | reflexivity].
  - intros ws (s & session & Hws & Ho & Hcn & Hvs & Ha)%F4.
    exists s, session. rewrite Hs, Hso.
    by rewrite (lookup_app_l_Some _ _ _ _ Hws), (lookup_app_l_Some _ _ _ _ Hvs).
  - intros ws. rewrite Hu, Hso, Henv. specialize (F6 ws).
    destruct (sockets w !! ws) as [s|] eqn:Hws.
    + by rewrite (lookup_app_l_Some _ _ _ _ Hws).
    + destruct ((sockets w ++ _) !! ws) as [s|] eqn:Hnew; [|done].
      apply lookup_snoc_inv in Hnew as [Hold | [_ ->]]; [congruence|].
      simpl. rewrite F6. by repeat split.
  - rewrite He. by apply quiet_app_harmless.
Qed.

Lemma consistent_failed (w w' : World) (clientWs : nat) (key cid : string) (t : Z) :
  env w' = env w →
  effects w' = effects w ++ [ClientSend clientWs initErrorFrame] →
  activeSessions w' = delete key (activeSessions w) →
  sessions w'
  = sessions w ++ [{| sessionId := key; conversationId := cid;
                      elevenLabsWs := None; geminiSession := None;
                      isActive := false; startTime := t |}] →
  sockets w' = sockets w →
  consistent w → consistent w'.
Proof.
  intros Henv He Hr Hs Hso [F1 F2 F3 F4 F5 F6 F7].
  assert (Forall harmless [ClientSend clientWs initErrorFrame]) as Hl
    by (by repeat constructor).
  pose proof (harmless_closeCalls w w' _ He Hl) as Hc.
  pose proof (λ ws, harmless_upstreamFrames w w' _ ws He Hl) as Hu.
  split; rewrite ?Hc; try assumption.
  - intros k vs. rewrite Hr, Hs. intros [_ Hk]%lookup_delete_Some.
    destruct (F1 k vs Hk) as (session & Hvs & Hid & Ha). exists session.
    by rewrite (lookup_app_l_Some _ _ _ _ Hvs).
  - intros vs session ws. rewrite Hs, Hso.
    intros [Hvs | [-> ->]]%lookup_snoc_inv Hlink; [by eapply F2 | discriminate].
  - intros ws s. rewrite Hs, Hso. intros Hws.
    destruct (F3 ws s Hws) as (session & Hvs & Hlink).
    exists session. by rewrite (lookup_app_l_Some _ _ _ _ Hvs).
  - intros ws (s & session & Hws & Ho & Hcn & Hvs & Ha)%F4.
    exists s, session. rewrite Hs, Hso.
    by rewrite (lookup_app_l_Some _ _ _ _ Hvs).
  - intros ws. rewrite Hu, Hso, Henv. apply F6.
  - rewrite He. by apply quiet_app_harmless.
Qed.

Lemma consistent_opened (w w' : World) (ws : nat) (s : UpstreamSocket) :
  sockets w !! ws = Some s → s.(readyState) = CONNECTING →
  env w' = env w →
  effects w' = effects w ++ [UpstreamSend ws (voiceSettingsFrame (env w))] →
  activeSessions w' = activeSessions w →
  sessions w' = sessions w →
  sockets w' = alter (setReadyState OPEN) ws (sockets w) →
  consistent w → consistent w'.
Proof.
  intros Hws Hconn Henv He Hr Hs Hso [F1 F2 F3 F4 F5 F6 F7].
  assert (closeCalls w' = closeCalls w) as Hc.
  { rewrite (closeCalls_app w w' _ He). simpl. apply app_nil_r. }
  assert (ws ∉ closeCalls w) as Hnot.
  { intros (s' & session' & Hws' & _ & Hno & _)%F4. congruence. }
  split; rewrite ?Hc, ?Hr, ?Hs; try assumption.
  - intros vs session u Hvs Hlink.
    destruct (F2 vs session u Hvs Hlink) as (s' & Hu & Hb).
    rewrite Hso, list_lookup_alter. case_decide as Hd.
    + subst u. rewrite Hu. simpl. eexists. split; [reflexivity|]. exact Hb.
    + by exists s'.
  - intros u s'. rewrite Hso, list_lookup_alter. case_decide as Hd.
    + subst u. rewrite Hws. simpl. intros [= <-]. simpl. by apply F3.
    + apply F3.
  - intros u Hu. destruct (F4 u Hu) as (s' & session & Hu' & Ho & Hcn & Hvs & Ha).
    exists s', session. rewrite Hso, list_lookup_alter_ne; [done|].
    intros ->. by apply Hnot.
  - intros u. rewrite Hso, Henv, (upstreamFrames_app u w w' _ He). simpl.
    specialize (F6 u). rewrite list_lookup_alter. case_decide as Hd.
    + subst u. rewrite Hws in F6 |- *. simpl. destruct F6 as (Hnone & _ & _).
      rewrite (Hnone Hconn). simpl.
      split; [discriminate|]. split; [discriminate|]. by intros f rest [= <- _].
    + simpl. rewrite app_nil_r. exact F6.
  - rewrite He. apply quiet_snoc; [done|].
    intros u f [= <- _]. by rewrite <- elem_of_closeCalls.
Qed.

Lemma consistent_closed (w w' : World) (ws : nat) :
  env w' = env w →
  effects w' = effects w →
  activeSessions w' = activeSessions w →
  sessions w' = sessions w →
  sockets w' = alter (setReadyState CLOSED) ws (sockets w) →
  consistent w → consistent w'.
Proof.
  intros Henv He Hr Hs Hso [F1 F2 F3 F4 F5 F6 F7].
  assert (closeCalls w' = closeCalls w) as Hc by (unfold closeCalls; by rewrite He).
  assert (∀ u, upstreamFrames u w' = upstreamFrames u w) as Hu
    by (intros u; unfold upstreamFrames; by rewrite He).
  split; rewrite ?Hc, ?Hr, ?Hs, ?He; try assumption.
  - intros vs session u Hvs Hlink.
    destruct (F2 vs session u Hvs Hlink) as (s' & Hu' & Hb).
    rewrite Hso, list_lookup_alter. case_decide as Hd.
    + subst u. rewrite Hu'. simpl. eexists. split; [reflexivity|]. exact Hb.
    + by exists s'.
  - intros u s'. rewrite Hso, list_lookup_alter. case_decide as Hd.
    + subst u. destruct (sockets w !! ws) as [s0|] eqn:Hws; [|done]. simpl.
      intros [= <-]. simpl. by apply F3.
    + apply F3.
  - intros u Hin. destruct (F4 u Hin) as (s' & session & Hu' & Ho & Hcn & Hvs & Ha).
    rewrite Hso, list_lookup_alter. case_decide as Hd.
    + subst u. rewrite Hu'. simpl. eexists _, session. by repeat split.
    + by exists s', session.
  - intros u. rewrite Hu, Hso, Henv. specialize (F6 u).
    rewrite list_lookup_alter. case_decide as Hd; [|exact F6].
    subst u. destruct (sockets w !! ws) as [s0|]; [|exact F6]. simpl.
    destruct F6 as (_ & _ & Hhead). by repeat split.
Qed.

Lemma insert_as_alter {A} (f : A → A) (l : list A) (i : nat) (x : A) :
  l !! i = Some x → <[i := f x]> l = alter f i l.
Proof.
  intros Hx. apply list_eq. intros j. rewrite list_lookup_alter.
  case_decide as Hd.
  - subst j. rewrite Hx. simpl. apply list_lookup_insert_eq.
    by eapply lookup_lt_Some.
  - by apply list_lookup_insert_ne.
Qed.

Lemma consistent_cleanup (w w' : World) (key : string) (vs : nat)
    (session : VoiceStreamingSession) :
  activeSessions w !! key = Some vs →
  sessions w !! vs = Some session →
  env w' = env w →
  effects w'
  = effects w ++ from_option (λ ws, [UpstreamClose ws]) [] session.(elevenLabsWs) →
  activeSessions w' = delete key (activeSessions w) →
  sessions w' = alter deactivate vs (sessions w) →
  sockets w'
  = from_option (λ ws, from_option (λ s, <[ws := closedBy s]> (sockets w))
                                   (sockets w) (sockets w !! ws))
                (sockets w) session.(elevenLabsWs) →
  consistent w → consistent w'.
Proof.
  intros Hk Hvs Henv He Hr Hs Hso [F1 F2 F3 F4 F5 F6 F7].
  destruct (F1 key vs Hk) as (session0 & Hvs0 & Hid & Hact).
  assert (session0 = session) as -> by congruence.
  (* registry entries other than [key] point to other session objects *)
  assert (∀ k v, delete key (activeSessions w) !! k = Some v →
            ∃ x, alter deactivate vs (sessions w) !! v = Some x
                 ∧ sessionId x = k ∧ isActive x = true) as F1'.
  { intros k v [Hne Hkv]%lookup_delete_Some.
    destruct (F1 k v Hkv) as (x & Hx & Hidx & Hax). exists x.
    rewrite list_lookup_alter_ne; [done|]. intros ->. congruence. }
  (* session objects keep their link; only [isActive] can drop *)
  assert (∀ v x, alter deactivate vs (sessions w) !! v = Some x →
            ∃ y, sessions w !! v = Some y ∧ elevenLabsWs x = elevenLabsWs y
                 ∧ (isActive y = false → isActive x = false)) as Hback.
  { intros v x. rewrite list_lookup_alter. case_decide as Hd.
    - subst v. rewrite Hvs. simpl. intros [= <-]. by exists session.
    - intros Hx. by exists x. }
  assert (∀ v y, sessions w !! v = Some y →
            ∃ x, alter deactivate vs (sessions w) !! v = Some x
                 ∧ elevenLabsWs x = elevenLabsWs y
                 ∧ (isActive y = false ∨ v = vs → isActive x = false)) as Hfwd.
  { intros v y Hy. rewrite list_lookup_alter. case_decide as Hd.
    - subst v. rewrite Hy. simpl. eexists. by repeat split.
    - exists y. repeat split; [done|]. by intros [? | ?]. }
  destruct (elevenLabsWs session) as [ws|] eqn:Hlink; simpl in He, Hso.
  - destruct (F2 vs session ws Hvs Hlink) as (s & Hws & Hb).
    rewrite Hws in Hso. simpl in Hso.
    rewrite (insert_as_alter closedBy _ _ _ Hws) in Hso.
    assert (closeCalls w' = closeCalls w ++ [ws]) as Hc
      by (by rewrite (closeCalls_app w w' _ He)).
    assert (∀ u, upstreamFrames u w' = upstreamFrames u w) as Hu.
    { intros u. rewrite (upstreamFrames_app u w w' _ He). apply app_nil_r. }
    assert (ws ∉ closeCalls w) as Hnot.
    { intros (s' & x & Hws' & _ & _ & Hx & Hax)%F4.
      assert (s' = s) as -> by congruence. rewrite Hb in Hx. congruence. }
    assert (∀ u x, alter closedBy ws (sockets w) !! u = Some x →
              ∃ y, sockets w !! u = Some y ∧ boundSession x = boundSession y
                   ∧ (u ≠ ws → x = y)) as Hsback.
    { intros u x. rewrite list_lookup_alter. case_decide as Hd.
      - subst u. rewrite Hws. simpl. intros [= <-]. by exists s.
      - intros Hx. by exists x. }
    split; rewrite ?Hr, ?Hs, ?Hso, ?Hc, ?Henv; try assumption.
    + intros v x u Hx Hlx. destruct (Hback v x Hx) as (y & Hy & Hl & _).
      rewrite Hl in Hlx. destruct (F2 v y u Hy Hlx) as (s' & Hu' & Hb').
      rewrite list_lookup_alter. case_decide as Hd.
      * subst u. rewrite Hu'. simpl. eexists. split; [reflexivity|]. exact Hb'.
      * by exists s'.
    + intros u x Hx. destruct (Hsback u x Hx) as (y & Hy & Hbx & _).
      destruct (F3 u y Hy) as (z & Hz & Hlz). rewrite Hbx.
      destruct (Hfwd _ z Hz) as (z' & Hz' & Hl & _). exists z'.
      split; [done | congruence].
    + intros u [Hin | ->%list_elem_of_singleton]%elem_of_app.
      * destruct (F4 u Hin) as (s' & x & Hu' & Ho & Hcn & Hx & Hax).
        destruct (Hfwd _ x Hx) as (x' & Hx' & _ & Hax').
        exists s', x'. rewrite list_lookup_alter_ne; [|intros ->; by apply Hnot].
        repeat split; auto.
      * destruct (Hfwd _ session Hvs) as (x' & Hx' & _ & Hax').
        exists (closedBy s), x'. rewrite list_lookup_alter_eq, Hws. simpl.
        rewrite Hb. repeat split; auto; by destruct (readyState s).
    + apply NoDup_app. split; [done|]. split; [|apply NoDup_singleton].
      intros u Hin ->%list_elem_of_singleton. by apply Hnot.
    + intros u. rewrite Hu. specialize (F6 u).
      rewrite list_lookup_alter. case_decide as Hd; [|exact F6].
      subst u. rewrite Hws in F6 |- *. simpl. destruct F6 as (_ & _ & Hhead).
      split; [by destruct (readyState s)|]. split; [by destruct (readyState s)|].
      exact Hhead.
    + rewrite He. apply quiet_snoc; [done|]. discriminate.
  - rewrite app_nil_r in He.
    assert (closeCalls w' = closeCalls w) as Hc by (unfold closeCalls; by rewrite He).
    assert (∀ u, upstreamFrames u w' = upstreamFrames u w) as Hu
      by (intros u; unfold upstreamFrames; by rewrite He).
    split; rewrite ?Hr, ?Hs, ?Hso, ?Hc, ?Henv, ?He; try assumption.
    + intros v x u Hx Hlx. destruct (Hback v x Hx) as (y & Hy & Hl & _).
      rewrite Hl in Hlx. by eapply F2.
    + intros u y Hy. destruct (F3 u y Hy) as (z & Hz & Hlz).
      destruct (Hfwd _ z Hz) as (z' & Hz' & Hl & _). exists z'.
      split; [done | congruence].
    + intros u Hin. destruct (F4 u Hin) as (s' & x & Hu' & Ho & Hcn & Hx & Hax).
      destruct (Hfwd _ x Hx) as (x' & Hx' & _ & Hax').
      exists s', x'. repeat split; auto.
    + intros u. rewrite Hu. apply F6.
Qed.

Lemma micro_consistent (w w' : World) : micro w w' → consistent w → consistent w'.
Proof.
  intros [l Hl Hh | vs session ws frame Hvs Ho Hl | c k cid t ? ? ? ? ? ?
          | c k cid t ? ? ? ? ? ? | ws s ? ? ? ? ? ? ? ? | ws ? ? ? ? ? ?
          | k vs session ? ? ? ? ? ? ? ?].
  - by eapply consistent_emit.
  - by eapply consistent_send.
  - by eapply consistent_created.
  - by eapply consistent_failed.
  - by eapply consistent_opened.
  - by eapply consistent_closed.
  - by eapply consistent_cleanup.
Qed.

Lemma emptyWorld_consistent (e : Env) : consistent (emptyWorld e).
Proof.
  split; simpl; try done.
  - intros ws Hin. by apply elem_of_nil in Hin.
  - apply NoDup_nil_2.
  - intros pre post ws frame Heq. by destruct pre.
Qed.

Lemma steps_consistent (e : Env) (evs : list Event) :
  consistent (steps (emptyWorld e) evs).
Proof.
  unfold steps. generalize (emptyWorld_consistent e). generalize (emptyWorld e).
  induction evs as [| ev evs IH]; intros w Hw; simpl; [done|].
  apply IH. pose proof (step_micro w ev) as Hsteps.
  induction Hsteps as [| w1 w2 w3 Hm _ IH']; [done|].
  apply IH'. by eapply micro_consistent.
Qed.

(** X8. In every state the service reaches, a registry entry leads to a
    session object that carries the entry's key as its [sessionId] and is
    still active. *)
Theorem registered_sessions_are_active_and_keyed (e : Env) (evs : list Event)
    (k : string) (vs : nat) :
  activeSessions (steps (emptyWorld e) evs) !! k = Some vs →
  ∃ session,
    sessions (steps (emptyWorld e) evs) !! vs = Some session
    ∧ session.(sessionId) = k ∧ session.(isActive) = true.
Proof. apply (c_registry _ (steps_consistent e evs)). Qed.

Lemma registered_sessions_are_active_and_keyed_witness :
  activeSessions (steps (emptyWorld exampleEnv) readyEvents) !! "s1-1700000000000"
  = Some 0%nat
  ∧ ∃ session,
      sessions (steps (emptyWorld exampleEnv) readyEvents) !! 0%nat = Some session
      ∧ session.(sessionId) = "s1-1700000000000" ∧ session.(isActive) = true.
Proof.
  assert (activeSessions (steps (emptyWorld exampleEnv) readyEvents)
            !! "s1-1700000000000" = Some 0%nat) as Hk by (vm_compute; reflexivity).
  exact (conj Hk (registered_sessions_are_active_and_keyed exampleEnv readyEvents
                    _ _ Hk)).
Defined.

(** X9. In every state the service reaches, the socket a session object
    holds in [elevenLabsWs] is a socket whose listeners were bound to that
    session, and every ElevenLabs socket is the one its session holds: one
    socket per session, never shared. *)
Theorem link_and_socket_belong_together (e : Env) (evs : list Event) :
  let w := steps (emptyWorld e) evs in
  (∀ vs session ws,
     sessions w !! vs = Some session → session.(elevenLabsWs) = Some ws →
     ∃ s, sockets w !! ws = Some s ∧ s.(boundSession) = vs)
  ∧ (∀ ws s,
       sockets w !! ws = Some s →
       ∃ session, sessions w !! s.(boundSession) = Some session
                  ∧ session.(elevenLabsWs) = Some ws).
Proof.
  pose proof (steps_consistent e evs) as [_ F2 F3 _ _ _ _]. by split.
Qed.

Lemma link_and_socket_belong_together_witness :
  sessions (steps (emptyWorld exampleEnv) readyEvents) !! 0%nat = Some exampleSession
  ∧ exampleSession.(elevenLabsWs) = Some 0%nat
  ∧ sockets (steps (emptyWorld exampleEnv) readyEvents) !! 0%nat
    = Some (exampleSocket OPEN)
  ∧ (∃ s, sockets (steps (emptyWorld exampleEnv) readyEvents) !! 0%nat = Some s
          ∧ s.(boundSession) = 0%nat)
  ∧ (∃ session,
       sessions (steps (emptyWorld exampleEnv) readyEvents)
         !! (exampleSocket OPEN).(boundSession) = Some session
       ∧ session.(elevenLabsWs) = Some 0%nat).
Proof.
  destruct (link_and_socket_belong_together exampleEnv readyEvents) as [Hl Hs].
  exact (conj eq_refl (conj eq_refl (conj eq_refl
           (conj (Hl 0%nat exampleSession 0%nat eq_refl eq_refl)
                 (Hs 0%nat (exampleSocket OPEN) eq_refl))))).
Defined.

(** X10. In every state the service reaches, [close()] has been called at
    most once on each ElevenLabs socket, and a socket it was called on
    belongs to a session that is inactive and no longer in the registry. *)
Theorem close_called_at_most_once (e : Env) (evs : list Event) :
  let w := steps (emptyWorld e) evs in
  NoDup (closeCalls w)
  ∧ (∀ ws, ws ∈ closeCalls w →
       ∃ s session,
         sockets w !! ws = Some s
         ∧ sessions w !! s.(boundSession) = Some session
         ∧ session.(isActive) = false
         ∧ ∀ k, activeSessions w !! k ≠ Some s.(boundSession)).
Proof.
  pose proof (steps_consistent e evs) as [F1 _ _ F4 F5 _ _]. split; [done|].
  intros ws Hin. destruct (F4 ws Hin) as (s & session & Hws & _ & _ & Hvs & Ha).
  exists s, session. repeat split; try done.
  intros k Hk. destruct (F1 k _ Hk) as (x & Hx & _ & Hax). congruence.
Qed.

Lemma close_called_at_most_once_witness :
  closeCalls (steps (emptyWorld exampleEnv) (closedEvents ++ [ClientClose 0]))
  = [0%nat]
  ∧ (0%nat ∈ closeCalls (steps (emptyWorld exampleEnv)
                          (closedEvents ++ [ClientClose 0])))
  ∧ ∃ s session,
      sockets (steps (emptyWorld exampleEnv) (closedEvents ++ [ClientClose 0]))
        !! 0%nat = Some s
      ∧ sessions (steps (emptyWorld exampleEnv) (closedEvents ++ [ClientClose 0]))
          !! s.(boundSession) = Some session
      ∧ session.(isActive) = false
      ∧ ∀ k, activeSessions
               (steps (emptyWorld exampleEnv) (closedEvents ++ [ClientClose 0]))
               !! k ≠ Some s.(boundSession).
Proof.
  assert (closeCalls (steps (emptyWorld exampleEnv)
                        (closedEvents ++ [ClientClose 0])) = [0%nat]) as Hc
    by (vm_compute; reflexivity).
  assert (0%nat ∈ closeCalls (steps (emptyWorld exampleEnv)
                               (closedEvents ++ [ClientClose 0]))) as Hin
    by (rewrite Hc; apply list_elem_of_here).
  destruct (close_called_at_most_once exampleEnv (closedEvents ++ [ClientClose 0]))
    as [_ Hclosed].
  exact (conj Hc (conj Hin (Hclosed 0%nat Hin))).
Defined.

(** X11. In every state the service reaches, nothing has been sent to the
    provider on a socket that is still connecting, something has been sent
    on a socket that is open, and whatever the frames sent on a socket are,
    the first of them is the voice settings frame with the API key. *)
Theorem settings_frame_first (e : Env) (evs : list Event) (ws : nat)
    (s : UpstreamSocket) :
  let w := steps (emptyWorld e) evs in
  sockets w !! ws = Some s →
  (s.(readyState) = CONNECTING → upstreamFrames ws w = [])
  ∧ (s.(readyState) = OPEN → upstreamFrames ws w ≠ [])
  ∧ (∀ frame rest, upstreamFrames ws w = frame :: rest →
       frame = voiceSettingsFrame (env w)).
Proof.
  intros w Hws. pose proof (c_settings _ (steps_consistent e evs) ws) as H6.
  fold w in H6. by rewrite Hws in H6.
Qed.

Lemma settings_frame_first_witness :
  sockets (steps (emptyWorld exampleEnv) closedEvents) !! 0%nat
  = Some (exampleSocket CLOSING)
  ∧ upstreamFrames 0 (steps (emptyWorld exampleEnv) closedEvents)
    = [voiceSettingsFrame exampleEnv; textFrame (JStr "hello")]
  ∧ voiceSettingsFrame exampleEnv
    = voiceSettingsFrame (env (steps (emptyWorld exampleEnv) closedEvents)).
Proof.
  destruct (settings_frame_first exampleEnv closedEvents 0 (exampleSocket CLOSING)
              eq_refl) as (_ & _ & Hhead).
  assert (upstreamFrames 0 (steps (emptyWorld exampleEnv) closedEvents)
          = [voiceSettingsFrame exampleEnv; textFrame (JStr "hello")]) as Hf
    by reflexivity.
  exact (conj eq_refl (conj Hf (Hhead _ _ Hf))).
Defined.

(** X12. In the effects of every state the service reaches, no frame is sent
    to the provider on a socket after [close()] was called on it. *)
Theorem no_send_after_close (e : Env) (evs : list Event)
    (pre post : list Effect) (ws : nat) (frame : JsValue) :
  effects (steps (emptyWorld e) evs) = pre ++ UpstreamClose ws :: post →
  UpstreamSend ws frame ∉ post.
Proof. apply (c_quiet _ (steps_consistent e evs)). Qed.

Lemma no_send_after_close_witness :
  effects (steps (emptyWorld exampleEnv)
             (closedEvents ++ [ClientMessage 0 (Normal helloFrame)]))
  = [ ClientSend 0 voiceReadyFrame;
      UpstreamSend 0 (voiceSettingsFrame exampleEnv);
      UpstreamSend 0 (textFrame (JStr "hello")) ]
    ++ UpstreamClose 0 :: []
  ∧ (UpstreamSend 0 (textFrame (JStr "hello")) ∉ @nil Effect).
Proof.
  assert (effects (steps (emptyWorld exampleEnv)
                     (closedEvents ++ [ClientMessage 0 (Normal helloFrame)]))
          = [ ClientSend 0 voiceReadyFrame;
              UpstreamSend 0 (voiceSettingsFrame exampleEnv);
              UpstreamSend 0 (textFrame (JStr "hello")) ]
            ++ UpstreamClose 0 :: []) as He by reflexivity.
  exact (conj He (no_send_after_close exampleEnv _ _ _ 0 _ He)).
Defined.

(** ** Removal finds sessions by key *)

(** X13. The close listener of a session removes whatever session the
    registry holds under that session's key. When a later creation has
    taken the key, closing the first client deactivates the later session,
    calls [close()] on the later session's socket and deletes the entry;
    the first session's own object is left as it was. *)
Theorem cleanup_is_by_key (w : World) (vs vs' : nat)
    (mine other : VoiceStreamingSession) :
  sessions w !! vs = Some mine →
  activeSessions w !! mine.(sessionId) = Some vs' →
  sessions w !! vs' = Some other →
  vs' ≠ vs →
  let w' := run (clientOnClose vs) w in
  sessions w' !! vs = Some mine
  ∧ sessions w' !! vs' = Some (deactivate other)
  ∧ activeSessions w' = delete mine.(sessionId) (activeSessions w)
  ∧ closeCalls w'
    = closeCalls w ++ from_option (λ ws, [ws]) [] other.(elevenLabsWs).
Proof.
  intros Hmine Hk Hother Hne w'.
  set (w1 := setConsole (λ l, l ++ [(LogInfo, "[Voice] Client disconnected")]) w).
  assert (w' = run (cleanupSession mine.(sessionId)) w1) as ->.
  { subst w'. unfold clientOnClose, readSession, consoleLog, modify, getWorld, run,
      mbind, M_bind, bind, mret, M_ret, ret. simpl. by rewrite Hmine. }
  destruct (cleanupSession_present mine.(sessionId) w1 vs' other Hk Hother)
    as (_ & Hr & Hs & He & _).
  rewrite Hr, Hs. change (sessions w1) with (sessions w).
  change (activeSessions w1) with (activeSessions w).
  split; [by rewrite list_lookup_alter_ne|].
  split; [by rewrite list_lookup_alter_eq, Hother|]. split; [done|].
  rewrite (closeCalls_app w1 _ _ He). change (closeCalls w1) with (closeCalls w).
  f_equal. by destruct (elevenLabsWs other).
Qed.

Lemma cleanup_is_by_key_witness :
  sessions collidingWorld !! 0%nat = Some exampleSession
  ∧ activeSessions collidingWorld !! exampleSession.(sessionId) = Some 1%nat
  ∧ sessions collidingWorld !! 1%nat
    = Some (assignElevenLabsWs 1 exampleSession)
  ∧ 1%nat ≠ 0%nat
  ∧ closeCalls (run (clientOnClose 0) collidingWorld) = [1%nat]
  ∧ sessions (run (clientOnClose 0) collidingWorld) !! 0%nat = Some exampleSession.
Proof.
  assert (activeSessions collidingWorld !! exampleSession.(sessionId) = Some 1%nat)
    as Hk by (vm_compute; reflexivity).
  assert (1%nat ≠ 0%nat) as Hne by discriminate.
  destruct (cleanup_is_by_key collidingWorld 0 1 exampleSession
              (assignElevenLabsWs 1 exampleSession) eq_refl Hk eq_refl Hne)
    as (Hmine & _ & _ & Hc).
  exact (conj eq_refl (conj Hk (conj eq_refl (conj Hne (conj Hc Hmine))))).
Defined.

(** ** The personality prompt table, completed *)

Lemma objectPrototype_Some (p : string) (v : JsValue) :
  Js.objectPrototype p = Some v →
  (p ∉ knownPersonalities) ∧ ∃ name, v = JNative name.
Proof.
  unfold Js.objectPrototype.
  destruct (String.eqb p "constructor") eqn:E1.
  { apply String.eqb_eq in E1 as ->. intros [= <-]. split; [|by eexists].
    unfold knownPersonalities. rewrite !not_elem_of_cons.
    repeat split; try discriminate. apply not_elem_of_nil. }
  destruct (String.eqb p "__proto__") eqn:E2.
  { apply String.eqb_eq in E2 as ->. intros [= <-]. split; [|by eexists].
    unfold knownPersonalities. rewrite !not_elem_of_cons.
    repeat split; try discriminate. apply not_elem_of_nil. }
  case_bool_decide as Hin; [|discriminate].
  intros [= <-]. split; [|by eexists].
  unfold knownPersonalities. rewrite !elem_of_cons, elem_of_nil in Hin.
  rewrite !not_elem_of_cons.
  destruct Hin as [-> | [-> | [-> | [-> | [-> | [-> | [-> | [-> | [-> | [-> | []]]]]]]]]]];
    (repeat split; try discriminate; apply not_elem_of_nil).
Qed.

(** X14. The resolver returns a prompt text exactly for the names that
    [Object.prototype] does not define. For such a name it is the
    personality's own prompt when the name is in the table and the
    [AUtistic AI] prompt otherwise, the empty name included. *)
Theorem prompt_is_text_unless_inherited (personality : string) :
  ((∃ text, getPersonalitySystemPrompt personality = JStr text)
   ↔ Js.objectPrototype personality = None)
  ∧ (Js.objectPrototype personality = None →
     personality ∉ knownPersonalities →
     getPersonalitySystemPrompt personality = defaultPrompt)
  ∧ getPersonalitySystemPrompt "" = defaultPrompt.
Proof.
  split; [|split; [intros Hp Hk; by apply prompt_of_unknown | reflexivity]].
  destruct (Js.objectPrototype personality) as [v|] eqn:Hp.
  - destruct (objectPrototype_Some _ _ Hp) as [Hk [name ->]].
    split; [|discriminate]. intros [text Ht].
    unfold getPersonalitySystemPrompt, Js.index at 1 in Ht.
    rewrite (ownProperty_prompts_None _ Hk), Hp in Ht. discriminate Ht.
  - split; [done|]. intros _.
    destruct (decide (personality ∈ knownPersonalities)) as [Hk | Hk].
    + by apply prompt_of_known.
    + rewrite (prompt_of_unknown _ Hk Hp). by eexists.
Qed.

Lemma prompt_is_text_unless_inherited_witness :
  Js.objectPrototype "Pirate" = None
  ∧ ("Pirate" ∉ knownPersonalities)
  ∧ getPersonalitySystemPrompt "Pirate" = defaultPrompt.
Proof.
  assert ("Pirate" ∉ knownPersonalities) as Hk.
  { unfold knownPersonalities. rewrite !not_elem_of_cons.
    repeat split; try discriminate. apply not_elem_of_nil. }
  destruct (prompt_is_text_unless_inherited "Pirate") as (_ & Hdef & _).
  exact (conj eq_refl (conj Hk (Hdef eq_refl Hk))).
Defined.
